(** * session.c: SSH client sessions for R, over libssh

    A shallow embedding of [src/session.c] and the properties of its
    connection, authentication and teardown logic.

    The C code talks to two collaborators: libssh (the native session) and the
    R runtime (external pointers, closures used as password call-backs, the
    console).  libssh and the R evaluator are kept abstract: a type [W] of
    "worlds" and an interface [LibSSH W] of transition functions.  The R heap
    of external pointers is concrete (a [gmap]), so that aliasing of a session
    handle is visible.  Every call that leaves session.c is recorded as an
    [event]; a computation returns its outcome, the new state and the events
    it emitted, in order. *)

From Stdlib Require Import ZArith Ascii String.
From stdpp Require Import base gmap list strings sorting.

Local Open Scope Z_scope.
Set Warnings "-register-all".

(** ** C strings and [char buf[1024]] *)

Abbreviation chars := (list ascii).

Definition NUL : ascii := Ascii.zero.

(** The string a [const char *] denotes: the bytes before the first NUL. *)
Fixpoint c_str (s : chars) : chars :=
  match s with
  | [] => []
  | c :: s' => if Ascii.eqb c NUL then [] else c :: c_str s'
  end.

Definition strlen (s : chars) : Z := Z.of_nat (length (c_str s)).

(** [strncpy(dst, src, n)]: at most [n] bytes of the source string, padded
    with NUL up to [n]; no terminator is written when the source has [n] or
    more bytes.  The result is the new contents of [dst[0..n)]. *)
Definition strncpy (src : chars) (n : nat) : chars :=
  take n (c_str src) ++ replicate (n - length (c_str src)) NUL.

(** Does a buffer hold a terminated string? *)
Definition terminated (buf : chars) : bool :=
  existsb (fun c => Ascii.eqb c NUL) buf.

(** [strlen(buf)] on a local buffer: when the buffer holds no terminator the
    scan leaves the array and the C value is indeterminate ([None]). *)
Definition strlen_buf (buf : chars) : option Z :=
  if terminated buf then Some (strlen buf) else None.

Definition lit (s : string) : chars := list_ascii_of_string s.

Definition newline : chars := ["010"%char].

(** ** libssh constants (values of libssh's [libssh.h]) *)

Definition NULL : Z := 0.

Definition SSH_OK : Z := 0.
Definition SSH_ERROR : Z := -1.

Definition SSH_AUTH_SUCCESS : Z := 0.
Definition SSH_AUTH_DENIED : Z := 1.
Definition SSH_AUTH_PARTIAL : Z := 2.
Definition SSH_AUTH_INFO : Z := 3.
Definition SSH_AUTH_AGAIN : Z := 4.
Definition SSH_AUTH_ERROR : Z := -1.

Definition SSH_AUTH_METHOD_NONE : Z := 1.
Definition SSH_AUTH_METHOD_PASSWORD : Z := 2.
Definition SSH_AUTH_METHOD_PUBLICKEY : Z := 4.
Definition SSH_AUTH_METHOD_HOSTBASED : Z := 8.
Definition SSH_AUTH_METHOD_INTERACTIVE : Z := 16.

(** [(type, value)] argument pair of [ssh_options_set]. *)
Inductive ssh_option :=
| SSH_OPTIONS_HOST (host : chars)
| SSH_OPTIONS_USER (user : chars)
| SSH_OPTIONS_PORT (port : Z).

(** ** The native library

    One field per libssh function that session.c calls, with the C
    signature: session and key pointers are integers, return codes are
    [int]s, and the library's own state lives in the world [W].

    libssh calls the registered [auth_function] back from inside
    [ssh_pki_import_privkey_file] and [ssh_userauth_publickey_auto] when a key
    needs a passphrase.  Those re-entrant calls are modelled by the list of
    prompts the library issues ([.._prompts]); the embedding answers each one
    through [my_auth_callback] and hands the filled buffers to the call. *)
Class LibSSH (W : Type) := {
  ssh_new : W -> Z * W;
  ssh_options_set : Z -> ssh_option -> W -> Z * W;
  ssh_set_callbacks : Z -> W -> Z * W;
  ssh_connect : Z -> W -> Z * W;
  ssh_get_error : Z -> W -> chars;
  ssh_disconnect : Z -> W -> W;
  ssh_free : Z -> W -> W;
  (* return code and the value left in [key] *)
  ssh_get_publickey : Z -> W -> (Z * Z) * W;
  (* return code and the hash written through [&hash, &hlen], if any *)
  ssh_get_publickey_hash : Z -> W -> (Z * option chars) * W;
  ssh_is_server_known : Z -> W -> Z * W;
  ssh_get_hexa : chars -> chars;
  ssh_userauth_none : Z -> W -> Z * W;
  ssh_userauth_list : Z -> W -> Z * W;
  ssh_userauth_publickey : Z -> Z -> W -> Z * W;
  ssh_userauth_publickey_auto_prompts : Z -> W -> list chars;
  ssh_userauth_publickey_auto : Z -> list chars -> W -> Z * W;
  ssh_userauth_kbdint : Z -> W -> Z * W;
  ssh_userauth_kbdint_getname : Z -> W -> chars;
  ssh_userauth_kbdint_getinstruction : Z -> W -> chars;
  ssh_userauth_kbdint_getnprompts : Z -> W -> Z;
  ssh_userauth_kbdint_getprompt : Z -> Z -> W -> chars;
  ssh_userauth_kbdint_setanswer : Z -> Z -> chars -> W -> Z * W;
  ssh_userauth_password : Z -> chars -> W -> Z * W;
  ssh_get_issue_banner : Z -> W -> option chars * W;
  ssh_pki_import_privkey_file_prompts : chars -> W -> list chars;
  (* return code and the value left in [privkey] *)
  ssh_pki_import_privkey_file : chars -> list chars -> W -> (Z * Z) * W
}.

(** ** Events: the calls that leave session.c *)
Inductive event :=
| E_Rprintf (text : chars)
| E_R_tryEval (prompt : chars)
| E_ssh_new (ssh : Z)
| E_ssh_options_set (ssh : Z) (opt : ssh_option) (rc : Z)
| E_ssh_set_callbacks (ssh : Z)
| E_ssh_connect (ssh : Z) (rc : Z)
| E_ssh_disconnect (ssh : Z)
| E_ssh_free (ssh : Z)
| E_ssh_get_publickey (ssh : Z) (rc : Z)
| E_ssh_get_publickey_hash (key : Z) (rc : Z)
| E_ssh_is_server_known (ssh : Z) (rc : Z)
| E_ssh_userauth_none (ssh : Z) (rc : Z)
| E_ssh_userauth_list (ssh : Z) (method : Z)
| E_ssh_userauth_publickey (ssh : Z) (key : Z) (rc : Z)
| E_ssh_userauth_publickey_auto (ssh : Z) (rc : Z)
| E_ssh_userauth_kbdint (ssh : Z) (rc : Z)
| E_ssh_userauth_kbdint_setanswer (ssh : Z) (i : Z) (buf : chars) (rc : Z)
| E_ssh_userauth_password (ssh : Z) (buf : chars) (rc : Z)
| E_ssh_get_issue_banner (ssh : Z)
| E_ssh_pki_import_privkey_file (path : chars) (rc : Z).

(** ** R conditions raised by [Rf_error] / [Rf_errorcall] *)
Inductive condition :=
| SessionDead
| LibsshFailure (what : string) (buf : chars)
| CallbackNotString
| UnsupportedPasswordType
| AuthenticationFailed
| KeyFileFailed (path : chars).

Definition conditionMessage (c : condition) : string :=
  match c with
  | SessionDead => "SSH session pointer is dead"
  | LibsshFailure what buf =>
      "libssh failure at '" +:+ what +:+ "': " +:+ string_of_list_ascii (c_str buf)
  | CallbackNotString => "Password callback did not return a string value"
  | UnsupportedPasswordType => "unsupported password type"
  | AuthenticationFailed => "Authentication failed, permission denied"
  | KeyFileFailed path =>
      "Failed to read private key: " +:+ string_of_list_ascii (c_str path)
  end.

(** ** Outcomes

    [Raise]: the C function left through [Rf_error] (a long jump to R's
    top level).  [Undefined]: the C code read outside an object.
    [Diverge]: the loop bound of the model was reached. *)
Inductive outcome (A : Type) :=
| Ok (a : A)
| Raise (e : condition)
| Undefined
| Diverge.
Arguments Ok {A} a.
Arguments Raise {A} e.
Arguments Undefined {A}.
Arguments Diverge {A}.

(** ** The R heap of external pointers *)
Abbreviation loc := positive.

Record extptr := ExtPtr {
  addr : Z;                  (* R_ExternalPtrAddr *)
  finalizer : bool;          (* is ssh_ptr_fin registered as C finalizer *)
  class : option string      (* the class attribute *)
}.

Definition clear (p : extptr) : extptr :=
  {| addr := NULL; finalizer := finalizer p; class := class p |}.

Section Session.
Context {W : Type} {lib : LibSSH W}.

(** ** R values

    The cases of [SEXP] that session.c inspects.  A closure is a function of
    its argument and the world: it may fail (R_tryEval sets its error flag,
    [None]) or return any R value. *)
Inductive SEXP :=
| NILSXP
| INTSXP (v : list Z)
| STRSXP (v : list chars)
| CLOSXP (f : chars -> W -> option SEXP * W)
| EXTPTRSXP (l : loc).

Definition R_NilValue : SEXP := NILSXP.

Definition Rf_isString (x : SEXP) : bool :=
  match x with STRSXP _ => true | _ => false end.

Definition Rf_isFunction (x : SEXP) : bool :=
  match x with CLOSXP _ => true | _ => false end.

Definition Rf_length (x : SEXP) : Z :=
  match x with
  | NILSXP => 0
  | INTSXP v => Z.of_nat (length v)
  | STRSXP v => Z.of_nat (length v)
  | CLOSXP _ | EXTPTRSXP _ => 1
  end.

Definition NA_INTEGER : Z := - 2147483648.

Definition Rf_asInteger (x : SEXP) : Z :=
  match x with
  | INTSXP (n :: _) => n
  | _ => NA_INTEGER
  end.

(** ** State and computations *)
Record state := State {
  world : W;
  heap : gmap loc extptr
}.

Definition M (A : Type) : Type := state -> outcome A * state * list event.

Definition ret {A} (a : A) : M A := fun s => (Ok a, s, []).

Definition bind {A B} (m : M A) (k : A -> M B) : M B :=
  fun s =>
    match m s with
    | (Ok a, s1, e1) => let '(r, s2, e2) := k a s1 in (r, s2, e1 ++ e2)
    | (Raise c, s1, e1) => (Raise c, s1, e1)
    | (Undefined, s1, e1) => (Undefined, s1, e1)
    | (Diverge, s1, e1) => (Diverge, s1, e1)
    end.

Definition Rf_error {A} (c : condition) : M A := fun s => (Raise c, s, []).
Definition undefined {A} : M A := fun s => (Undefined, s, []).
Definition diverge {A} : M A := fun s => (Diverge, s, []).

(** A call into libssh: run the transition on the world, log the call. *)
Definition native {A} (f : W -> A * W) (ev : A -> event) : M A :=
  fun s =>
    let '(a, w) := f (world s) in
    (Ok a, {| world := w; heap := heap s |}, [ev a]).

(** A libssh function returning [void]. *)
Definition native_ (f : W -> W) (ev : event) : M unit :=
  fun s => (Ok tt, {| world := f (world s); heap := heap s |}, [ev]).

(** A libssh accessor: reads the world, changes nothing. *)
Definition peek {A} (f : W -> A) : M A := fun s => (Ok (f (world s)), s, []).

Definition Rprintf (text : chars) : M unit := fun s => (Ok tt, s, [E_Rprintf text]).

Definition outcome_of {A} (x : outcome A * state * list event) : outcome A := x.1.1.
Definition state_of {A} (x : outcome A * state * list event) : state := x.1.2.
Definition events_of {A} (x : outcome A * state * list event) : list event := x.2.

End Session.

Arguments SEXP W : clear implicits.
Arguments state W : clear implicits.
Arguments M W A : clear implicits.

Declare Scope session_scope.
Delimit Scope session_scope with session.
Notation "x <- m ;; k" := (bind m (fun x => k))
  (at level 100, m at next level, k at level 200, right associativity) : session_scope.
Notation "m ;; k" := (bind m (fun _ => k))
  (at level 100, k at level 200, right associativity) : session_scope.
Local Open Scope session_scope.

Section Code.
Context {W : Type} {lib : LibSSH W}.

Abbreviation SEXP := (SEXP W).
Abbreviation M := (M W).

(** ** R API used on the handle and the credential *)

(** [STRING_ELT(x, 0)] followed by [CHAR]: element 0 of a character vector;
    reading element 0 of an empty vector, or of a value that is not a
    character vector, is outside the object. *)
Definition STRING_ELT0 (x : SEXP) : M chars :=
  match x with
  | STRSXP (s :: _) => ret s
  | _ => undefined
  end.

Definition R_ExternalPtrAddr (ptr : SEXP) : M Z :=
  fun s =>
    match ptr with
    | EXTPTRSXP l =>
        match heap s !! l with
        | Some p => (Ok (addr p), s, [])
        | None => (Undefined, s, [])
        end
    | _ => (Undefined, s, [])
    end.

Definition R_ClearExternalPtr (ptr : SEXP) : M unit :=
  fun s =>
    match ptr with
    | EXTPTRSXP l =>
        (Ok tt, {| world := world s; heap := alter clear l (heap s) |}, [])
    | _ => (Undefined, s, [])
    end.

Definition R_MakeExternalPtr (p : Z) : M SEXP :=
  fun s =>
    let l := fresh (dom (heap s)) in
    (Ok (EXTPTRSXP l),
     {| world := world s;
        heap := <[l := {| addr := p; finalizer := false; class := None |}]> (heap s) |},
     []).

(** [R_RegisterCFinalizerEx(ptr, ssh_ptr_fin, TRUE)]: the only finalizer this
    file registers is [ssh_ptr_fin]. *)
Definition R_RegisterCFinalizerEx (ptr : SEXP) : M unit :=
  fun s =>
    match ptr with
    | EXTPTRSXP l =>
        (Ok tt,
         {| world := world s;
            heap := alter (fun p => {| addr := addr p; finalizer := true; class := class p |})
                          l (heap s) |}, [])
    | _ => (Undefined, s, [])
    end.

Definition Rf_setAttrib_class (ptr : SEXP) (cls : string) : M unit :=
  fun s =>
    match ptr with
    | EXTPTRSXP l =>
        (Ok tt,
         {| world := world s;
            heap := alter (fun p => {| addr := addr p; finalizer := finalizer p;
                                        class := Some cls |})
                          l (heap s) |}, [])
    | _ => (Undefined, s, [])
    end.

(** [R_tryEval] of the call [f(prompt)]: [None] when the error flag is set. *)
Definition R_tryEval (f : SEXP) (arg : chars) : M (option SEXP) :=
  fun s =>
    match f with
    | CLOSXP g =>
        let '(res, w) := g arg (world s) in
        (Ok res, {| world := w; heap := heap s |}, [E_R_tryEval arg])
    | _ => (Ok None, s, [E_R_tryEval arg])
    end.

(** Modelled from the spec: [make_string] is declared in myssh.h and defined
    outside session.c; the spec says the callback is invoked "with the prompt
    text", so the R string built from a [const char *] carries that text. *)
Definition make_string (x : chars) : chars := c_str x.

(** ** session.c *)

(** lines 3-8 *)
Definition ssh_ptr_get (ptr : SEXP) : M Z :=
  ssh <- R_ExternalPtrAddr ptr ;;
  if ssh =? NULL then Rf_error SessionDead
  else ret ssh.

(** lines 10-17 *)
Definition ssh_ptr_fin (ptr : SEXP) : M unit :=
  ssh <- R_ExternalPtrAddr ptr ;;
  if ssh =? NULL then ret tt
  else
    native_ (ssh_disconnect ssh) (E_ssh_disconnect ssh) ;;
    native_ (ssh_free ssh) (E_ssh_free ssh) ;;
    R_ClearExternalPtr ptr.

(** lines 19-25 *)
Definition ssh_ptr_create (ssh : Z) : M SEXP :=
  ptr <- R_MakeExternalPtr ssh ;;
  R_RegisterCFinalizerEx ptr ;;
  Rf_setAttrib_class ptr "ssh_session" ;;
  ret ptr.

(** lines 27-35 *)
Definition bail_if (rc : Z) (what : string) (ssh : Z) : M unit :=
  if negb (rc =? SSH_OK) then
    buf <- peek (fun w => strncpy (ssh_get_error ssh w) 1024) ;;
    native_ (ssh_disconnect ssh) (E_ssh_disconnect ssh) ;;
    native_ (ssh_free ssh) (E_ssh_free ssh) ;;
    Rf_error (LibsshFailure what buf)
  else ret tt.

(** lines 37-54.  The result is the new contents of [buf] and the returned
    [size_t]. *)
Definition password_cb (rpass : SEXP) (prompt : chars) : M (chars * option Z) :=
  if Rf_isString rpass && negb (Rf_length rpass =? 0) then
    s <- STRING_ELT0 rpass ;;
    ret (strncpy s 1024, Some (Z.of_nat (length s)))
  else if Rf_isFunction rpass then
    res <- R_tryEval rpass (make_string prompt) ;;
    match res with
    | None => Rf_error CallbackNotString
    | Some res =>
        if negb (Rf_isString res) then Rf_error CallbackNotString
        else
          s <- STRING_ELT0 res ;;
          let buf := strncpy s 1024 in
          ret (buf, strlen_buf buf)
    end
  else Rf_error UnsupportedPasswordType.

(** lines 56-61 *)
Definition my_auth_callback (prompt : chars) (userdata : SEXP) : M (Z * chars) :=
  Rprintf (lit "Calling my_auth_callback" ++ newline) ;;
  let rpass := userdata in
  r <- password_cb rpass prompt ;;
  ret (SSH_OK, r.1).

(** libssh asking for passphrases through the registered [auth_function]. *)
Fixpoint auth_function_calls (prompts : list chars) (userdata : SEXP) : M (list chars) :=
  match prompts with
  | [] => ret []
  | p :: ps =>
      r <- my_auth_callback p userdata ;;
      bufs <- auth_function_calls ps userdata ;;
      ret (r.2 :: bufs)
  end.

(** [buf] handed to libssh as a [const char *]: the callee reads a C string
    there, so when the array holds no terminator the read leaves the
    array. *)
Definition read_as_string (buf : chars) : M unit :=
  if terminated buf then ret tt else undefined.

(** lines 63-69 *)
Definition auth_password (ssh : Z) (rpass : SEXP) : M Z :=
  r <- password_cb rpass (lit "Please enter your password") ;;
  let buf := r.1 in
  read_as_string buf ;;
  rc <- native (ssh_userauth_password ssh buf) (E_ssh_userauth_password ssh buf) ;;
  bail_if (Z.b2z (rc =? SSH_AUTH_ERROR)) "password auth" ssh ;;
  ret rc.

(** lines 81-87, the [for] loop over the prompts of one round: [n] slots
    are left, [iprompt] is the next one.  The result tells whether the loop
    was left through [return SSH_AUTH_ERROR]. *)
Fixpoint kbdint_answers (ssh : Z) (rpass : SEXP) (n : nat) (iprompt : Z) : M bool :=
  match n with
  | O => ret false
  | S n' =>
      prompt <- peek (ssh_userauth_kbdint_getprompt ssh iprompt) ;;
      r <- password_cb rpass prompt ;;
      let buf := r.1 in
      read_as_string buf ;;
      rc <- native (ssh_userauth_kbdint_setanswer ssh iprompt buf)
                   (E_ssh_userauth_kbdint_setanswer ssh iprompt buf) ;;
      if rc <? 0 then ret true
      else kbdint_answers ssh rpass n' (iprompt + 1)
  end.

(** lines 73-90, the [while] loop, entered with the result [rc] of the last
    challenge request.  [fuel] bounds the number of rounds. *)
Fixpoint kbdint_rounds (fuel : nat) (ssh : Z) (rpass : SEXP) (rc : Z) {struct fuel} : M Z :=
  if rc =? SSH_AUTH_INFO then
    match fuel with
    | O => diverge
    | S fuel' =>
        name <- peek (ssh_userauth_kbdint_getname ssh) ;;
        instruction <- peek (ssh_userauth_kbdint_getinstruction ssh) ;;
        nprompts <- peek (ssh_userauth_kbdint_getnprompts ssh) ;;
        (if 0 <? strlen name then Rprintf (c_str name ++ newline) else ret tt) ;;
        (if 0 <? strlen instruction then Rprintf (c_str instruction ++ newline) else ret tt) ;;
        returned <- kbdint_answers ssh rpass (Z.to_nat nprompts) 0 ;;
        if returned then ret SSH_AUTH_ERROR
        else
          rc' <- native (ssh_userauth_kbdint ssh) (E_ssh_userauth_kbdint ssh) ;;
          kbdint_rounds fuel' ssh rpass rc'
    end
  else ret rc.

(** lines 71-91 *)
Definition auth_interactive (fuel : nat) (ssh : Z) (rpass : SEXP) : M Z :=
  rc <- native (ssh_userauth_kbdint ssh) (E_ssh_userauth_kbdint ssh) ;;
  kbdint_rounds fuel ssh rpass rc.

(** [if (c) return; rest] *)
Definition return_if (c : M bool) (rest : M unit) : M unit :=
  b <- c ;; if b then ret tt else rest.

(** [a && b] with [b] a call: [b] runs only when [a] holds. *)
Definition and_then (a : bool) (b : M bool) : M bool :=
  if a then b else ret false.

(** [ssh_userauth_publickey_auto(ssh, NULL, NULL)]; the passphrase prompts go
    to the callback registered by [C_start_session], whose userdata is
    [rpass]. *)
Definition userauth_publickey_auto (ssh : Z) (rpass : SEXP) : M Z :=
  prompts <- peek (ssh_userauth_publickey_auto_prompts ssh) ;;
  bufs <- auth_function_calls prompts rpass ;;
  native (ssh_userauth_publickey_auto ssh bufs) (E_ssh_userauth_publickey_auto ssh).

(** lines 98-103: [true] when one of the two [return]s was taken *)
Definition auth_publickey (ssh privkey : Z) (rpass : SEXP) (method : Z) : M bool :=
  if negb (Z.land method SSH_AUTH_METHOD_PUBLICKEY =? 0) then
    b <- and_then (negb (privkey =? NULL))
           (rc <- native (ssh_userauth_publickey ssh privkey)
                         (E_ssh_userauth_publickey ssh privkey) ;;
            ret (rc =? SSH_AUTH_SUCCESS)) ;;
    if b then ret true
    else
      and_then (privkey =? NULL)
        (rc <- userauth_publickey_auto ssh rpass ;;
         ret (rc =? SSH_AUTH_SUCCESS))
  else ret false.

(** lines 94-109 *)
Definition auth_any (fuel : nat) (ssh privkey : Z) (rpass : SEXP) : M unit :=
  return_if (rc <- native (ssh_userauth_none ssh) (E_ssh_userauth_none ssh) ;;
             ret (rc =? SSH_AUTH_SUCCESS))
  (method <- native (ssh_userauth_list ssh) (E_ssh_userauth_list ssh) ;;
   return_if (auth_publickey ssh privkey rpass method)
  (return_if (and_then (negb (Z.land method SSH_AUTH_METHOD_INTERACTIVE =? 0))
                (rc <- auth_interactive fuel ssh rpass ;; ret (rc =? SSH_AUTH_SUCCESS)))
  (return_if (and_then (negb (Z.land method SSH_AUTH_METHOD_PASSWORD =? 0))
                (rc <- auth_password ssh rpass ;; ret (rc =? SSH_AUTH_SUCCESS)))
  (Rf_error AuthenticationFailed)))).

(** lines 113-117 *)
Definition read_privkey (keyfile rpass : SEXP) : M Z :=
  if negb (Rf_length keyfile =? 0) then
    path <- STRING_ELT0 keyfile ;;
    prompts <- peek (ssh_pki_import_privkey_file_prompts path) ;;
    bufs <- auth_function_calls prompts rpass ;;
    r <- native (ssh_pki_import_privkey_file path bufs)
                (fun r => E_ssh_pki_import_privkey_file path r.1) ;;
    if negb (r.1 =? SSH_OK) then Rf_error (KeyFileFailed path)
    else ret r.2
  else ret NULL.

(** lines 139-146 *)
Definition server_identity (ssh : Z) : M unit :=
  k <- native (ssh_get_publickey ssh) (fun r => E_ssh_get_publickey ssh r.1) ;;
  let key := k.2 in
  h <- native (ssh_get_publickey_hash key) (fun r => E_ssh_get_publickey_hash key r.1) ;;
  let hash := default [] h.2 in
  known <- native (ssh_is_server_known ssh) (E_ssh_is_server_known ssh) ;;
  if known =? 0 then
    Rprintf (lit "Unknown server fingerprint: " ++ c_str (ssh_get_hexa hash) ++ newline)
  else ret tt.

(** lines 111-159 *)
Definition C_start_session (fuel : nat) (rhost rport ruser keyfile rpass : SEXP) : M SEXP :=
  privkey <- read_privkey keyfile rpass ;;
  let port := Rf_asInteger rport in
  host <- STRING_ELT0 rhost ;;
  user <- STRING_ELT0 ruser ;;
  ssh <- native ssh_new E_ssh_new ;;
  rc <- native (ssh_options_set ssh (SSH_OPTIONS_HOST host))
               (E_ssh_options_set ssh (SSH_OPTIONS_HOST host)) ;;
  bail_if rc "set host" ssh ;;
  rc <- native (ssh_options_set ssh (SSH_OPTIONS_USER user))
               (E_ssh_options_set ssh (SSH_OPTIONS_USER user)) ;;
  bail_if rc "set user" ssh ;;
  rc <- native (ssh_options_set ssh (SSH_OPTIONS_PORT port))
               (E_ssh_options_set ssh (SSH_OPTIONS_PORT port)) ;;
  bail_if rc "set port" ssh ;;
  native (ssh_set_callbacks ssh) (fun _ => E_ssh_set_callbacks ssh) ;;
  rc <- native (ssh_connect ssh) (E_ssh_connect ssh) ;;
  bail_if rc "connect" ssh ;;
  server_identity ssh ;;
  auth_any fuel ssh privkey rpass ;;
  banner <- native (ssh_get_issue_banner ssh) (fun _ => E_ssh_get_issue_banner ssh) ;;
  match banner with
  | Some b => Rprintf (c_str b ++ newline)
  | None => ret tt
  end ;;
  ssh_ptr_create ssh.

(** lines 161-164 *)
Definition C_disconnect_session (ptr : SEXP) : M SEXP :=
  ssh_ptr_fin ptr ;;
  ret R_NilValue.

End Code.

(** ** A scripted libssh

    A resource-tracking fake of the native library: every reply is read from
    a script, keyboard-interactive rounds are consumed one per challenge
    request, and the fake counts the disconnects and frees it has seen. *)
Module Fake.

Record round := Round {
  r_name : chars;
  r_instruction : chars;
  r_prompts : list (chars * Z)     (* prompt text, reply of setanswer *)
}.

Record script := Script {
  session : Z;                     (* what ssh_new returns *)
  host_rc : Z;
  user_rc : Z;
  port_rc : Z;
  connect_rc : Z;
  error_text : chars;
  publickey_rc : Z;
  server_key : Z;
  hash_rc : Z;
  server_hash : option chars;
  server_known : Z;
  none_rc : Z;
  methods : Z;
  userauth_publickey_rc : Z;
  auto_prompts : list chars;
  auto_rc : Z;
  rounds : list round;
  kbdint_final : Z;
  password : chars;                (* the password the server accepts *)
  password_reject : Z;             (* reply to any other password *)
  banner : option chars;
  import_prompts : list chars;
  import_rc : Z;
  imported_key : Z
}.

Record sim := Sim {
  cfg : script;
  pending : list round;
  current : option round;
  disconnects : nat;
  frees : nat
}.

Definition boot (c : script) : sim :=
  {| cfg := c; pending := rounds c; current := None; disconnects := 0; frees := 0 |}.

Fixpoint chars_eqb (a b : chars) : bool :=
  match a, b with
  | [], [] => true
  | x :: a', y :: b' => Ascii.eqb x y && chars_eqb a' b'
  | _, _ => false
  end.

Definition challenge (w : sim) : Z * sim :=
  match pending w with
  | r :: rest =>
      (SSH_AUTH_INFO,
       {| cfg := cfg w; pending := rest; current := Some r;
          disconnects := disconnects w; frees := frees w |})
  | [] =>
      (kbdint_final (cfg w),
       {| cfg := cfg w; pending := []; current := None;
          disconnects := disconnects w; frees := frees w |})
  end.

Definition prompts_of (w : sim) : list (chars * Z) :=
  match current w with Some r => r_prompts r | None => [] end.

#[export] Instance lib : LibSSH sim := {|
  ssh_new w := (session (cfg w), w);
  ssh_options_set _ opt w :=
    (match opt with
     | SSH_OPTIONS_HOST _ => host_rc (cfg w)
     | SSH_OPTIONS_USER _ => user_rc (cfg w)
     | SSH_OPTIONS_PORT _ => port_rc (cfg w)
     end, w);
  ssh_set_callbacks _ w := (SSH_OK, w);
  ssh_connect _ w := (connect_rc (cfg w), w);
  ssh_get_error _ w := error_text (cfg w);
  ssh_disconnect _ w :=
    {| cfg := cfg w; pending := pending w; current := current w;
       disconnects := S (disconnects w); frees := frees w |};
  ssh_free _ w :=
    {| cfg := cfg w; pending := pending w; current := current w;
       disconnects := disconnects w; frees := S (frees w) |};
  ssh_get_publickey _ w := ((publickey_rc (cfg w), server_key (cfg w)), w);
  ssh_get_publickey_hash _ w := ((hash_rc (cfg w), server_hash (cfg w)), w);
  ssh_is_server_known _ w := (server_known (cfg w), w);
  ssh_get_hexa h := h;
  ssh_userauth_none _ w := (none_rc (cfg w), w);
  ssh_userauth_list _ w := (methods (cfg w), w);
  ssh_userauth_publickey _ _ w := (userauth_publickey_rc (cfg w), w);
  ssh_userauth_publickey_auto_prompts _ w := auto_prompts (cfg w);
  ssh_userauth_publickey_auto _ _ w := (auto_rc (cfg w), w);
  ssh_userauth_kbdint _ w := challenge w;
  ssh_userauth_kbdint_getname _ w :=
    match current w with Some r => r_name r | None => [] end;
  ssh_userauth_kbdint_getinstruction _ w :=
    match current w with Some r => r_instruction r | None => [] end;
  ssh_userauth_kbdint_getnprompts _ w := Z.of_nat (length (prompts_of w));
  ssh_userauth_kbdint_getprompt _ i w :=
    match prompts_of w !! Z.to_nat i with Some p => p.1 | None => [] end;
  ssh_userauth_kbdint_setanswer _ i _ w :=
    (match prompts_of w !! Z.to_nat i with Some p => p.2 | None => -1 end, w);
  ssh_userauth_password _ buf w :=
    (if chars_eqb (c_str buf) (password (cfg w)) then SSH_AUTH_SUCCESS
     else password_reject (cfg w), w);
  ssh_get_issue_banner _ w := (banner (cfg w), w);
  ssh_pki_import_privkey_file_prompts _ w := import_prompts (cfg w);
  ssh_pki_import_privkey_file _ _ w := ((import_rc (cfg w), imported_key (cfg w)), w)
|}.

(** A server that accepts the transport connection and whose host key can
    be read; the rest of the script is given. *)
Definition server (known none methods : Z) (rs : list round)
    (final : Z) (reject : Z) : script :=
  {| session := 4096; host_rc := SSH_OK; user_rc := SSH_OK; port_rc := SSH_OK;
     connect_rc := SSH_OK; error_text := lit "";
     publickey_rc := SSH_OK; server_key := 8192; hash_rc := SSH_OK;
     server_hash := Some (lit "ab:cd"); server_known := known;
     none_rc := none; methods := methods;
     userauth_publickey_rc := SSH_AUTH_DENIED; auto_prompts := [];
     auto_rc := SSH_AUTH_DENIED; rounds := rs; kbdint_final := final;
     password := lit "secret123"; password_reject := reject;
     banner := None; import_prompts := []; import_rc := SSH_OK; imported_key := 12288 |}.

(** The host-key calls fail as given. *)
Definition without_host_key (c : script) (key_rc hash_code : Z) : script :=
  {| session := session c; host_rc := host_rc c; user_rc := user_rc c;
     port_rc := port_rc c; connect_rc := connect_rc c; error_text := error_text c;
     publickey_rc := key_rc; server_key := (if key_rc =? SSH_OK then server_key c else 0);
     hash_rc := hash_code; server_hash := None; server_known := server_known c;
     none_rc := none_rc c; methods := methods c;
     userauth_publickey_rc := userauth_publickey_rc c; auto_prompts := auto_prompts c;
     auto_rc := auto_rc c; rounds := rounds c; kbdint_final := kbdint_final c;
     password := password c; password_reject := password_reject c;
     banner := banner c; import_prompts := import_prompts c; import_rc := import_rc c;
     imported_key := imported_key c |}.

Definition start (c : script) : state sim := State (boot c) ∅.

End Fake.

(** ** Scenarios *)
Module Scenario.
Import Fake.

(** "none" is refused and only the password method is advertised. *)
Definition password_only : script :=
  server 1 SSH_AUTH_DENIED SSH_AUTH_METHOD_PASSWORD [] SSH_AUTH_DENIED SSH_AUTH_DENIED.

(** No method the negotiator supports is advertised. *)
Definition no_methods : script :=
  server 1 SSH_AUTH_DENIED 0 [] SSH_AUTH_DENIED SSH_AUTH_DENIED.

(** The server grants access to "none". *)
Definition anonymous : script :=
  server 1 SSH_AUTH_SUCCESS 0 [] SSH_AUTH_DENIED SSH_AUTH_DENIED.

(** Password authentication ends in [SSH_AUTH_ERROR]. *)
Definition password_error : script :=
  server 1 SSH_AUTH_DENIED SSH_AUTH_METHOD_PASSWORD [] SSH_AUTH_DENIED SSH_AUTH_ERROR.

(** The server's key is there but its hash cannot be computed; the server
    is in the known-hosts store and grants access to "none". *)
Definition no_fingerprint : script := without_host_key anonymous SSH_OK SSH_ERROR.

(** Neither the server's key nor its hash can be retrieved; the server is
    unknown and advertises no method. *)
Definition no_host_key : script :=
  without_host_key (server 0 SSH_AUTH_DENIED 0 [] SSH_AUTH_DENIED SSH_AUTH_DENIED)
                   SSH_ERROR SSH_ERROR.

(** Keyboard-interactive only: two rounds without prompts, then success. *)
Definition empty_rounds : script :=
  server 1 SSH_AUTH_DENIED SSH_AUTH_METHOD_INTERACTIVE
    [Round [] [] []; Round (lit "OTP") [] []] SSH_AUTH_SUCCESS SSH_AUTH_DENIED.

(** Keyboard-interactive only: one round of three prompts, the second
    answer is rejected. *)
Definition second_answer_rejected : script :=
  server 1 SSH_AUTH_DENIED SSH_AUTH_METHOD_INTERACTIVE
    [Round [] [] [(lit "User: ", 0); (lit "Code: ", -1); (lit "PIN: ", 0)]]
    SSH_AUTH_SUCCESS SSH_AUTH_DENIED.

Definition rhost : SEXP sim := STRSXP [lit "example.org"].
Definition rport : SEXP sim := INTSXP [22].
Definition ruser : SEXP sim := STRSXP [lit "jeroen"].
Definition no_keyfile : SEXP sim := STRSXP [].
Definition secret123 : SEXP sim := STRSXP [lit "secret123"].
Definition hunter2 : SEXP sim :=
  CLOSXP (fun _ w => (Some (STRSXP [lit "hunter2"]), w)).
Definition unsupported : SEXP sim := INTSXP [42].

(** A secret one byte longer than the buffer. *)
Definition long_secret : chars := replicate 1025 "a"%char.
Definition long_literal : SEXP sim := STRSXP [long_secret].
Definition long_callback : SEXP sim :=
  CLOSXP (fun _ w => (Some (STRSXP [long_secret]), w)).

Definition connect (c : script) (rpass : SEXP sim) :=
  C_start_session 8 rhost rport ruser no_keyfile rpass (start c).

(** A live session handle. *)
Definition live_handle : state sim :=
  State (boot password_only)
        {[ 1%positive := {| addr := 4096; finalizer := true; class := Some "ssh_session" |} ]}.

(** The same handle after its pointer was cleared. *)
Definition dead_handle : state sim :=
  State (boot password_only)
        {[ 1%positive := {| addr := NULL; finalizer := true; class := Some "ssh_session" |} ]}.

End Scenario.

(** ** Vocabulary of the specification *)

Definition none_of (p : event -> Prop) (evs : list event) : Prop :=
  Forall (fun e => ~ p e) evs.

(** The last event satisfies [p], and it is the only one. *)
Definition ends_with (p : event -> Prop) (evs : list event) : Prop :=
  exists pre e, evs = pre ++ [e] /\ none_of p pre /\ p e.

Section Vocabulary.
Context {W : Type}.

(** The secret a credential stands for, when asked with [prompt] in world
    [w]: the first string of a literal character vector, or the first string
    of the character vector a callback returns. *)
Definition resolved_secret (rpass : SEXP W) (prompt : chars) (w : W) : option chars :=
  match rpass with
  | STRSXP (secret :: _) => Some secret
  | CLOSXP f =>
      match (f (make_string prompt) w).1 with
      | Some (STRSXP (secret :: _)) => Some secret
      | _ => None
      end
  | _ => None
  end.

(** A buffer holds [secret] as a C string: terminated inside the buffer, and
    the bytes before the terminator are the secret. *)
Definition holds (buf secret : chars) : Prop :=
  terminated buf = true /\ c_str buf = secret.

(** [resolve(credential, prompt)] returns [secret]. *)
Definition resolves_to (rpass : SEXP W) (prompt : chars) (s : state W) (secret : chars) : Prop :=
  exists buf n s' evs,
    password_cb rpass prompt s = (Ok (buf, n), s', evs) /\ holds buf secret.

(** The buffer an event hands to an authentication primitive. *)
Definition submitted_buffer (e : event) : option chars :=
  match e with
  | E_ssh_userauth_password _ buf _ => Some buf
  | E_ssh_userauth_kbdint_setanswer _ _ buf _ => Some buf
  | _ => None
  end.

(** [m] emits only events satisfying [P], and a normal result satisfies [Q]. *)
Definition emits {A} (P : event -> Prop) (Q : A -> Prop) (m : M W A) : Prop :=
  forall s, Forall P (events_of (m s)) /\
            forall a, outcome_of (m s) = Ok a -> Q a.

(** An answer that libssh rejected. *)
Definition rejected (e : event) : Prop :=
  match e with
  | E_ssh_userauth_kbdint_setanswer _ _ _ rc => rc < 0
  | _ => False
  end.

Definition accepted_only (evs : list event) : Prop := none_of rejected evs.

(** The calls end with a rejected answer, the only one. *)
Definition ends_rejected (evs : list event) : Prop := ends_with rejected evs.

Definition aborts_or_accepted (x : outcome Z * state W * list event) : Prop :=
  (outcome_of x = Ok SSH_AUTH_ERROR /\ ends_rejected (events_of x)) \/
  accepted_only (events_of x).

End Vocabulary.

(** *** The negotiation *)
















Section Outcomes.
Context {W : Type}.









End Outcomes.

(** How often a connection attempt disconnected and freed the session. *)
Definition is_disconnect (ssh : Z) (e : event) : bool :=
  match e with E_ssh_disconnect p => p =? ssh | _ => false end.

Definition is_free (ssh : Z) (e : event) : bool :=
  match e with E_ssh_free p => p =? ssh | _ => false end.

Definition teardowns (ssh : Z) (evs : list event) : nat * nat :=
  (length (filter (fun e => is_disconnect ssh e = true) evs),
   length (filter (fun e => is_free ssh e = true) evs)).

(** What a keyboard-interactive round prints before its prompts: the name
    and the instruction, when not empty (lines 77-80). *)
Definition round_header {W} {lib : LibSSH W} (ssh : Z) (w : W) : list event :=
  (if 0 <? strlen (ssh_userauth_kbdint_getname ssh w)
   then [E_Rprintf (c_str (ssh_userauth_kbdint_getname ssh w) ++ newline)] else []) ++
  (if 0 <? strlen (ssh_userauth_kbdint_getinstruction ssh w)
   then [E_Rprintf (c_str (ssh_userauth_kbdint_getinstruction ssh w) ++ newline)] else []).

(** *** The life cycle of the native session *)

(** The calls that create and release a session. *)
Definition is_lifecycle (e : event) : bool :=
  match e with
  | E_ssh_new _ | E_ssh_disconnect _ | E_ssh_free _ => true
  | _ => false
  end.

Definition lifecycle_calls (evs : list event) : list event :=
  filter (fun e => is_lifecycle e = true) evs.

(** The calls that configure and connect a session, or read the key file. *)
Definition is_setup (e : event) : bool :=
  match e with
  | E_ssh_new _ | E_ssh_options_set _ _ _ | E_ssh_set_callbacks _
  | E_ssh_connect _ _ | E_ssh_pki_import_privkey_file _ _ => true
  | _ => false
  end.

(** A setup call that libssh refused. *)
Definition failed_setup (e : event) : Prop :=
  match e with
  | E_ssh_options_set _ _ rc => rc <> SSH_OK
  | E_ssh_connect _ rc => rc <> SSH_OK
  | _ => False
  end.

Definition peaceful (e : event) : Prop := is_lifecycle e = false.

(** What goes on once the session is connected: neither a setup call nor a
    life-cycle call. *)
Definition traffic (e : event) : Prop := is_setup e = false /\ is_lifecycle e = false.

(** The condition of [bail_if]. *)
Definition bailed {A} (o : outcome A) : Prop :=
  exists what buf, o = Raise (LibsshFailure what buf).


(** The slots answered in a keyboard-interactive exchange, in order. *)
Definition answer_slots (evs : list event) : list Z :=
  omap (fun e => match e with
                 | E_ssh_userauth_kbdint_setanswer _ i _ _ => Some i
                 | _ => None
                 end) evs.


(** A transport connection that was established. *)
Definition connected (e : event) : Prop :=
  match e with
  | E_ssh_connect _ rc => rc = SSH_OK
  | _ => False
  end.

(** What follows an established connection: the three host-key calls, the
    fingerprint line exactly when the server is not in the known-hosts
    store, then "none" authentication. *)
Definition proceeds_to_authentication (ssh : Z) (after : list event) : Prop :=
  exists krc key hrc known printed rc0 rest,
    after = [E_ssh_get_publickey ssh krc; E_ssh_get_publickey_hash key hrc;
             E_ssh_is_server_known ssh known]
            ++ printed ++ E_ssh_userauth_none ssh rc0 :: rest /\
    (known <> 0 /\ printed = [] \/
     known = 0 /\ exists fingerprint,
       printed = [E_Rprintf (lit "Unknown server fingerprint: " ++ fingerprint ++ newline)]).

(** A call of the [for] loop of a keyboard-interactive round: the
    credential callback, or an answer. *)
Definition answering (e : event) : Prop :=
  match e with
  | E_R_tryEval _ | E_ssh_userauth_kbdint_setanswer _ _ _ _ => True
  | _ => False
  end.

(** Not a challenge request that ended the exchange: every challenge request
    among such calls was answered "info". *)
Definition goes_on (e : event) : Prop :=
  match e with
  | E_ssh_userauth_kbdint _ rc => rc = SSH_AUTH_INFO
  | _ => True
  end.

(** The slots [i], [i+1], ... of [k] consecutive prompts. *)
Definition slots_from (i : Z) (k : nat) : list Z := (fun j => i + Z.of_nat j) <$> seq 0 k.

(** The handle [ssh_ptr_create] makes for [ssh]. *)
Definition session_handle_of (ssh : Z) : extptr :=
  {| addr := ssh; finalizer := true; class := Some "ssh_session" |}.

Section Discipline.
Context {W : Type}.

(** [m] releases the session [ssh] only the way [bail_if] does: either it
    ends in the condition of [bail_if], its last two calls being
    [ssh_disconnect] then [ssh_free], or it does not end that way; all its
    other calls satisfy [P]. *)
Definition disciplined {A} (P : event -> Prop) (ssh : Z) (m : M W A) : Prop :=
  forall s,
    (bailed (outcome_of (m s)) /\
     exists pre, events_of (m s) = pre ++ [E_ssh_disconnect ssh; E_ssh_free ssh] /\
                 Forall P pre) \/
    (~ bailed (outcome_of (m s)) /\ Forall P (events_of (m s))).

(** Neither a life-cycle call nor a refused setup call. *)
Definition calm (e : event) : Prop :=
  is_lifecycle e = false /\ ~ failed_setup e /\ ~ connected e.

(** A refused setup call is followed by the teardown of [ssh] and nothing
    else. *)
Definition stops_at_failed_setup {A} (ssh : Z) (x : outcome A * state W * list event) : Prop :=
  (bailed (outcome_of x) /\
   exists pre e, events_of x = pre ++ [e; E_ssh_disconnect ssh; E_ssh_free ssh] /\
                 none_of failed_setup pre /\ failed_setup e) \/
  none_of failed_setup (events_of x).

(** On success [m] has added one fresh handle, the one of [ssh]; otherwise it
    has left the external pointers alone. *)
Definition creates (ssh : Z) (m : M W (SEXP W)) : Prop :=
  forall s,
    match outcome_of (m s) with
    | Ok ptr =>
        exists l, ptr = EXTPTRSXP l /\ heap s !! l = None /\
                  heap (state_of (m s)) = <[l := session_handle_of ssh]> (heap s)
    | _ => heap (state_of (m s)) = heap s
    end.

(** [m] leaves the external pointers alone. *)
Definition frame {A} (m : M W A) : Prop :=
  forall s, heap (state_of (m s)) = heap s.

End Discipline.

(** ** More scenarios: failures before authentication, several handles *)

Module Incidents.
Import Fake Scenario.

(** The transport connection is refused. *)
Definition refused : script :=
  {| session := 4096; host_rc := SSH_OK; user_rc := SSH_OK; port_rc := SSH_OK;
     connect_rc := SSH_ERROR; error_text := lit "Connection refused";
     publickey_rc := SSH_OK; server_key := 8192; hash_rc := SSH_OK;
     server_hash := Some (lit "ab:cd"); server_known := 1;
     none_rc := SSH_AUTH_DENIED; methods := SSH_AUTH_METHOD_PASSWORD;
     userauth_publickey_rc := SSH_AUTH_DENIED; auto_prompts := [];
     auto_rc := SSH_AUTH_DENIED; rounds := []; kbdint_final := SSH_AUTH_DENIED;
     password := lit "secret123"; password_reject := SSH_AUTH_DENIED;
     banner := None; import_prompts := []; import_rc := SSH_OK; imported_key := 12288 |}.

(** The private key file cannot be imported. *)
Definition broken_key : script :=
  {| session := 4096; host_rc := SSH_OK; user_rc := SSH_OK; port_rc := SSH_OK;
     connect_rc := SSH_OK; error_text := lit "no such file";
     publickey_rc := SSH_OK; server_key := 8192; hash_rc := SSH_OK;
     server_hash := Some (lit "ab:cd"); server_known := 1;
     none_rc := SSH_AUTH_DENIED; methods := SSH_AUTH_METHOD_PUBLICKEY;
     userauth_publickey_rc := SSH_AUTH_SUCCESS; auto_prompts := [];
     auto_rc := SSH_AUTH_DENIED; rounds := []; kbdint_final := SSH_AUTH_DENIED;
     password := lit "secret123"; password_reject := SSH_AUTH_DENIED;
     banner := None; import_prompts := []; import_rc := SSH_ERROR; imported_key := 0 |}.

Definition id_rsa : SEXP sim := STRSXP [lit "id_rsa"].

(** Two live handles, for two sessions. *)
Definition two_handles : state sim :=
  State (boot password_only)
        (<[2%positive := {| addr := 20480; finalizer := true; class := Some "ssh_session" |}]>
           {[ 1%positive := {| addr := 4096; finalizer := true;
                               class := Some "ssh_session" |} ]}).

End Incidents.

(** * Properties *)

(** ** Running a computation step by step *)

Section Steps.
Context {W : Type}.
Implicit Types (s : state W).

Lemma bind_ret {A B} (a : A) (k : A -> M W B) s : bind (ret a) k s = k a s.
Proof. unfold bind, ret. by destruct (k a s) as [[??]?]. Qed.

Lemma bind_peek {A B} (f : W -> A) (k : A -> M W B) s :
  bind (peek f) k s = k (f (world s)) s.
Proof. unfold bind, peek. by destruct (k _ s) as [[??]?]. Qed.

Lemma bind_Rprintf {B} text (k : unit -> M W B) s :
  bind (Rprintf text) k s =
    (outcome_of (k tt s), state_of (k tt s), E_Rprintf text :: events_of (k tt s)).
Proof. unfold bind, Rprintf. by destruct (k tt s) as [[??]?]. Qed.

Lemma bind_native {A B} (f : W -> A * W) ev (k : A -> M W B) s :
  bind (native f ev) k s =
    let r := k (f (world s)).1 {| world := (f (world s)).2; heap := heap s |} in
    (outcome_of r, state_of r, ev (f (world s)).1 :: events_of r).
Proof.
  unfold bind, native. destruct (f (world s)) as [a w]. simpl.
  by destruct (k a _) as [[??]?].
Qed.

Lemma bind_native_ {B} (f : W -> W) ev (k : unit -> M W B) s :
  bind (native_ f ev) k s =
    let r := k tt {| world := f (world s); heap := heap s |} in
    (outcome_of r, state_of r, ev :: events_of r).
Proof. unfold bind, native_. by destruct (k tt _) as [[??]?]. Qed.

Lemma bind_read_as_string {B} (buf : chars) (k : unit -> M W B) s :
  bind (read_as_string buf) k s = if terminated buf then k tt s else (Undefined, s, []).
Proof.
  unfold bind, read_as_string. destruct (terminated buf); [|done].
  simpl. by destruct (k tt s) as [[??]?].
Qed.

Lemma bind_run {A B} (m : M W A) (k : A -> M W B) s :
  bind m k s =
    match outcome_of (m s) with
    | Ok a =>
        let r := k a (state_of (m s)) in
        (outcome_of r, state_of r, events_of (m s) ++ events_of r)
    | Raise c => (Raise c, state_of (m s), events_of (m s))
    | Undefined => (Undefined, state_of (m s), events_of (m s))
    | Diverge => (Diverge, state_of (m s), events_of (m s))
    end.
Proof.
  unfold bind, outcome_of, state_of, events_of.
  destruct (m s) as [[[a| | |] s1] e1]; simpl; try done.
  by destruct (k a s1) as [[??]?].
Qed.

Lemma bind_assoc {A B C} (m : M W A) (k : A -> M W B) (h : B -> M W C) s :
  bind (bind m k) h s = bind m (fun a => bind (k a) h) s.
Proof.
  unfold bind. destruct (m s) as [[[a| | |] s1] e1]; try done.
  destruct (k a s1) as [[[b| | |] s2] e2]; try done.
  destruct (h b s2) as [[r s3] e3]. by rewrite app_assoc.
Qed.

End Steps.

(** ** Session handles *)

Section Handles.
Context {W : Type} {lib : LibSSH W}.

Lemma ssh_ptr_fin_dead (s : state W) l p :
  heap s !! l = Some p -> addr p = NULL ->
  ssh_ptr_fin (EXTPTRSXP l) s = (Ok tt, s, []).
Proof.
  intros Hl Hp. unfold ssh_ptr_fin, bind, R_ExternalPtrAddr.
  rewrite Hl, Hp. reflexivity.
Qed.

Lemma ssh_ptr_fin_live (s : state W) l p :
  heap s !! l = Some p -> addr p <> NULL ->
  ssh_ptr_fin (EXTPTRSXP l) s =
    (Ok tt,
     {| world := ssh_free (addr p) (ssh_disconnect (addr p) (world s));
        heap := alter clear l (heap s) |},
     [E_ssh_disconnect (addr p); E_ssh_free (addr p)]).
Proof.
  intros Hl Hp. unfold ssh_ptr_fin, bind, R_ExternalPtrAddr.
  rewrite Hl. apply Z.eqb_neq in Hp. rewrite Hp. reflexivity.
Qed.

(** C8: [C_disconnect_session] is idempotent.  On a dead handle it does
    nothing and returns normally; on a live one it calls [ssh_disconnect],
    then [ssh_free], once each, and clears the pointer; calling it twice
    in a row leaves the same result, state and calls as calling it once. *)
Theorem disconnect_idempotent (s : state W) (l : loc) (p : extptr) :
  heap s !! l = Some p ->
  (addr p = NULL ->
     C_disconnect_session (EXTPTRSXP l) s = (Ok R_NilValue, s, [])) /\
  (addr p <> NULL ->
     C_disconnect_session (EXTPTRSXP l) s =
       (Ok R_NilValue,
        {| world := ssh_free (addr p) (ssh_disconnect (addr p) (world s));
           heap := alter clear l (heap s) |},
        [E_ssh_disconnect (addr p); E_ssh_free (addr p)])
     /\ (addr <$> alter clear l (heap s) !! l) = Some NULL) /\
  (C_disconnect_session (EXTPTRSXP l) ;; C_disconnect_session (EXTPTRSXP l)) s =
    C_disconnect_session (EXTPTRSXP l) s.
Proof.
  intros Hl.
  assert (Hdead : forall s' p', heap s' !! l = Some p' -> addr p' = NULL ->
            C_disconnect_session (EXTPTRSXP l) s' = (Ok R_NilValue, s', [])).
  { intros s' p' H1 H2. unfold C_disconnect_session, bind.
    by rewrite (ssh_ptr_fin_dead s' l p'). }
  assert (Hlive : addr p <> NULL ->
            C_disconnect_session (EXTPTRSXP l) s =
              (Ok R_NilValue,
               {| world := ssh_free (addr p) (ssh_disconnect (addr p) (world s));
                  heap := alter clear l (heap s) |},
               [E_ssh_disconnect (addr p); E_ssh_free (addr p)])).
  { intros Hp. unfold C_disconnect_session, bind.
    by rewrite (ssh_ptr_fin_live s l p). }
  assert (Hcleared : alter clear l (heap s) !! l = Some (clear p)).
  { by rewrite lookup_alter_eq, Hl. }
  split; [by eauto|]. split.
  - intros Hp. split; [by auto|]. by rewrite Hcleared.
  - destruct (decide (addr p = NULL)) as [Hp|Hp].
    + unfold bind at 1. rewrite (Hdead s p Hl Hp). by rewrite (Hdead s p Hl Hp).
    + unfold bind at 1. rewrite (Hlive Hp).
      erewrite Hdead; [|exact Hcleared|reflexivity].
      by rewrite app_nil_r.
Qed.

(** C9: on a handle whose pointer has been cleared, [ssh_ptr_get] raises
    "SSH session pointer is dead", so an operation that obtains the native
    session through it stops there: its continuation never runs, the state is
    unchanged and no call reaches libssh.  The destructor does not touch a
    dead handle's resource either. *)
Theorem dead_handle_never_dereferenced (s : state W) (l : loc) (p : extptr) :
  heap s !! l = Some p -> addr p = NULL ->
  ssh_ptr_get (EXTPTRSXP l) s = (Raise SessionDead, s, []) /\
  conditionMessage SessionDead = "SSH session pointer is dead" /\
  (forall (A : Type) (operation : Z -> M W A),
      (ssh <- ssh_ptr_get (EXTPTRSXP l) ;; operation ssh) s = (Raise SessionDead, s, [])) /\
  events_of (C_disconnect_session (EXTPTRSXP l) s) = [].
Proof.
  intros Hl Hp.
  assert (Hget : ssh_ptr_get (EXTPTRSXP l) s = (Raise SessionDead, s, [])).
  { unfold ssh_ptr_get, bind, R_ExternalPtrAddr. by rewrite Hl, Hp. }
  repeat split; [done| |].
  - intros A op. unfold bind at 1. by rewrite Hget.
  - unfold C_disconnect_session, bind. by rewrite (ssh_ptr_fin_dead s l p).
Qed.

End Handles.

(** ** C strings *)

Lemma c_str_no_NUL (s : chars) : NUL ∉ s -> c_str s = s.
Proof.
  induction s as [|c s IH]; [done|]. intros H. simpl.
  destruct (Ascii.eqb c NUL) eqn:E.
  - apply Ascii.eqb_eq in E. subst. exfalso. apply H. by left.
  - f_equal. apply IH. intros ?. apply H. by right.
Qed.

Lemma c_str_app_NUL (s pad : chars) : NUL ∉ s -> c_str (s ++ NUL :: pad) = s.
Proof.
  induction s as [|c s IH]; [done|]. intros H. simpl.
  destruct (Ascii.eqb c NUL) eqn:E.
  - apply Ascii.eqb_eq in E. subst. exfalso. apply H. by left.
  - f_equal. apply IH. intros ?. apply H. by right.
Qed.

Lemma strncpy_length (src : chars) (n : nat) : length (strncpy src n) = n.
Proof. unfold strncpy. rewrite length_app, length_take, length_replicate. lia. Qed.

Lemma strncpy_full (src : chars) (n : nat) :
  (n <= length (c_str src))%nat -> strncpy src n = take n (c_str src).
Proof.
  intros H. unfold strncpy. replace (n - length (c_str src))%nat with 0%nat by lia.
  simpl. by rewrite app_nil_r.
Qed.

Lemma strncpy_short (src : chars) (n : nat) :
  NUL ∉ src -> (length src < n)%nat ->
  strncpy src n = src ++ replicate (n - length src) NUL /\ holds (strncpy src n) src.
Proof.
  intros Hn Hl. unfold strncpy. rewrite (c_str_no_NUL src Hn).
  rewrite take_ge by lia. split; [done|].
  destruct (n - length src)%nat as [|k] eqn:E; [lia|]. simpl. split.
  - unfold terminated. rewrite existsb_app. simpl. by rewrite orb_true_r.
  - by apply c_str_app_NUL.
Qed.

(** ** Credential resolution: [password_cb] *)

Section Credentials.
Context {W : Type}.
Implicit Types (s : state W) (rpass : SEXP W) (secret prompt : chars).

Lemma password_cb_literal s secret (more : list chars) prompt :
  password_cb (STRSXP (secret :: more)) prompt s =
    (Ok (strncpy secret 1024, Some (Z.of_nat (length secret))), s, []).
Proof.
  unfold password_cb. simpl.
  replace (Z.pos (Pos.of_succ_nat (length more)) =? 0) with false by (symmetry; by apply Z.eqb_neq).
  reflexivity.
Qed.

Lemma password_cb_closure s (f : chars -> W -> option (SEXP W) * W) prompt :
  password_cb (CLOSXP f) prompt s =
    let r := f (make_string prompt) (world s) in
    let s' := {| world := r.2; heap := heap s |} in
    let evs := [E_R_tryEval (make_string prompt)] in
    match r.1 with
    | None => (Raise CallbackNotString, s', evs)
    | Some (STRSXP (secret :: _)) =>
        (Ok (strncpy secret 1024, strlen_buf (strncpy secret 1024)), s', evs)
    | Some (STRSXP []) => (Undefined, s', evs)
    | Some _ => (Raise CallbackNotString, s', evs)
    end.
Proof.
  unfold password_cb, bind, R_tryEval. simpl.
  destruct (f (make_string prompt) (world s)) as [[v|] w]; simpl; [|done].
  destruct v as [|?|[|x v]|?|?]; reflexivity.
Qed.

(** C4, as amended: a literal secret shorter than the 1024-byte buffer is
    returned exactly, whatever the prompt, without touching the state and
    without calling anything. *)
Theorem literal_secret_returned s secret (more : list chars) prompt :
  NUL ∉ secret -> (length secret < 1024)%nat ->
  password_cb (STRSXP (secret :: more)) prompt s =
    (Ok (secret ++ replicate (1024 - length secret) NUL, Some (Z.of_nat (length secret))),
     s, [])
  /\ resolves_to (STRSXP (secret :: more)) prompt s secret.
Proof.
  intros Hn Hl. destruct (strncpy_short secret 1024 Hn Hl) as [Heq Hholds].
  assert (H := password_cb_literal s secret more prompt).
  split.
  - by rewrite <- Heq.
  - unfold resolves_to. eauto 10.
Qed.

(** C5, as amended: with a callback credential, "Password callback did not
    return a string value" is raised exactly when the callback fails or its
    value is not a character vector; when the value is a character vector no
    condition is raised at all; and when its first string is shorter than
    the 1024-byte buffer, that string is what [password_cb] returns. *)
Theorem callback_credential s (f : chars -> W -> option (SEXP W) * W) prompt :
  let r := f (make_string prompt) (world s) in
  (outcome_of (password_cb (CLOSXP f) prompt s) = Raise CallbackNotString <->
     r.1 = None \/ exists v, r.1 = Some v /\ Rf_isString v = false) /\
  (forall v, r.1 = Some (STRSXP v) ->
     forall c, outcome_of (password_cb (CLOSXP f) prompt s) <> Raise c) /\
  (forall secret more, r.1 = Some (STRSXP (secret :: more)) ->
     NUL ∉ secret -> (length secret < 1024)%nat ->
     password_cb (CLOSXP f) prompt s =
       (Ok (secret ++ replicate (1024 - length secret) NUL, Some (Z.of_nat (length secret))),
        {| world := r.2; heap := heap s |}, [E_R_tryEval (make_string prompt)])
     /\ resolves_to (CLOSXP f) prompt s secret).
Proof.
  intros r. rewrite password_cb_closure. fold r. cbv zeta.
  split; [|split].
  - destruct (r.1) as [v|] eqn:E; simpl.
    + destruct v as [|?|[|x v]|?|?]; simpl; split; intros H;
        try done; try (right; eexists; split; [done|done]);
        destruct H as [H|(v' & H1 & H2)]; try done;
        by inversion H1; subst.
    + split; [by left|done].
  - intros v Hv c. rewrite Hv. by destruct v.
  - intros secret more Hv Hn Hl. rewrite Hv.
    destruct (strncpy_short secret 1024 Hn Hl) as [Heq [Ht Hc]].
    assert (Hlen : strlen_buf (strncpy secret 1024) = Some (Z.of_nat (length secret))).
    { unfold strlen_buf, strlen. by rewrite Ht, Hc. }
    rewrite Hlen. split; [by rewrite <- Heq|].
    unfold resolves_to. rewrite password_cb_closure. fold r. cbv zeta. rewrite Hv, Hlen.
    do 4 eexists. split; [done|]. by split.
Qed.

(** Whatever [password_cb] returns is the credential's secret run through
    [strncpy(buf, secret, 1024)]. *)
Lemma password_cb_buffer rpass prompt s buf n s' evs :
  password_cb rpass prompt s = (Ok (buf, n), s', evs) ->
  exists secret, resolved_secret rpass prompt (world s) = Some secret /\
                 buf = strncpy secret 1024.
Proof.
  destruct rpass as [|?|[|x v]|f|?]; try done.
  - rewrite password_cb_literal. intros [= <- _ _ _]. by exists x.
  - rewrite password_cb_closure. cbv zeta. simpl.
    destruct (f (make_string prompt) (world s)) as [[r|] w]; simpl; [|done].
    destruct r as [|?|[|x v]|?|?]; try done.
    intros [= <- _ _ _]. by exists x.
Qed.

Lemma password_cb_submits_nothing rpass prompt s :
  Forall (fun e => submitted_buffer e = None) (events_of (password_cb rpass prompt s)).
Proof.
  destruct rpass as [|?|[|x v]|f|?];
    [constructor|constructor|constructor| | |constructor].
  - rewrite password_cb_literal. constructor.
  - rewrite password_cb_closure. cbv zeta.
    destruct (f (make_string prompt) (world s)).1 as [[|?|[|??]|?|?]|];
      simpl; by repeat constructor.
Qed.

End Credentials.

(** ** Event invariants *)

Section Emits.
Context {W : Type} {lib : LibSSH W}.
Variable P : event -> Prop.




Lemma emits_native_ (f : W -> W) (ev : event) :
  P ev -> emits P (fun _ => True) (native_ f ev).
Proof. intros H s. split; [|done]. by repeat constructor. Qed.



Lemma emits_Rf_error {A} (Q : A -> Prop) c : emits P Q (Rf_error (W:=W) c).
Proof. intros s. split; [constructor|done]. Qed.

Lemma emits_undefined {A} (Q : A -> Prop) : emits P Q (undefined (W:=W)).
Proof. intros s. split; [constructor|done]. Qed.




End Emits.

(** ** Secrets reach libssh through the 1024-byte buffer *)

Section HandOff.
Context {W : Type} {lib : LibSSH W}.
Implicit Types (s : state W) (rpass : SEXP W).

(** For every library: when the buffer [password_cb] filled has no
    terminator, [auth_password] ends in the read past the array, having
    called nothing beyond credential resolution. *)
Lemma auth_password_unterminated ssh rpass s (r : chars * option Z) :
  outcome_of (password_cb rpass (lit "Please enter your password") s) = Ok r ->
  terminated r.1 = false ->
  auth_password ssh rpass s =
    (Undefined, state_of (password_cb rpass (lit "Please enter your password") s),
     events_of (password_cb rpass (lit "Please enter your password") s)).
Proof.
  intros Hr Ht. unfold auth_password. rewrite bind_run, Hr. cbv zeta.
  rewrite bind_read_as_string, Ht.
  unfold outcome_of, state_of, events_of. simpl. by rewrite app_nil_r.
Qed.

End HandOff.

(** C10, at the failing input: the server advertises only password
    authentication and the credential is a literal of 1025 bytes.
    [password_cb] leaves the first 1024 bytes of the secret in the buffer
    and no terminator, and reports the size 1025.  [auth_password] hands the
    buffer to [ssh_userauth_password], which reads a C string there: the read
    leaves the array, so what is submitted is not the truncated prefix, and
    the attempt ends in that read with no submission made.  The same happens
    to the first answer of a keyboard-interactive round. *)
Theorem long_secret_read_past_buffer :
  let prompt := lit "Please enter your password" in
  let r := password_cb Scenario.long_literal prompt (Fake.start Scenario.password_only) in
  let x := Scenario.connect Scenario.password_only Scenario.long_literal in
  let y := auth_interactive (lib:=Fake.lib) 8 4096 Scenario.long_literal
             (Fake.start Scenario.second_answer_rejected) in
  outcome_of r = Ok (take 1024 Scenario.long_secret, Some 1025) /\
  terminated (take 1024 Scenario.long_secret) = false /\
  outcome_of x = Undefined /\
  events_of x =
    [E_ssh_new 4096;
     E_ssh_options_set 4096 (SSH_OPTIONS_HOST (lit "example.org")) SSH_OK;
     E_ssh_options_set 4096 (SSH_OPTIONS_USER (lit "jeroen")) SSH_OK;
     E_ssh_options_set 4096 (SSH_OPTIONS_PORT 22) SSH_OK;
     E_ssh_set_callbacks 4096;
     E_ssh_connect 4096 SSH_OK;
     E_ssh_get_publickey 4096 SSH_OK;
     E_ssh_get_publickey_hash 8192 SSH_OK;
     E_ssh_is_server_known 4096 1;
     E_ssh_userauth_none 4096 SSH_AUTH_DENIED;
     E_ssh_userauth_list 4096 SSH_AUTH_METHOD_PASSWORD] /\
  outcome_of y = Undefined /\
  events_of y = [E_ssh_userauth_kbdint 4096 SSH_AUTH_INFO].
Proof. repeat split; vm_compute; reflexivity. Qed.


(** ** The keyboard-interactive sub-protocol *)

Section Interactive.
Context {W : Type} {lib : LibSSH W}.
Implicit Types (s : state W) (rpass : SEXP W).

Lemma kbdint_rounds_terminal fuel ssh rpass rc s :
  rc <> SSH_AUTH_INFO -> kbdint_rounds fuel ssh rpass rc s = (Ok rc, s, []).
Proof.
  intros H. apply Z.eqb_neq in H. destruct fuel; simpl; by rewrite H.
Qed.

(** C7: a round that answers "info" and advertises no prompt.  Whatever the
    credential is (even one whose resolution would raise), the round prints
    its header, resolves nothing, submits nothing and issues the next
    challenge request; the loop goes on from that request's result, and a
    result other than "info" is returned as the result of the sub-protocol. *)
Theorem zero_prompt_round fuel ssh rpass s :
  ssh_userauth_kbdint_getnprompts ssh (world s) <= 0 ->
  let next := ssh_userauth_kbdint ssh (world s) in
  let s1 := {| world := next.2; heap := heap s |} in
  let this_round := round_header ssh (world s) ++ [E_ssh_userauth_kbdint ssh next.1] in
  kbdint_rounds (S fuel) ssh rpass SSH_AUTH_INFO s =
    (outcome_of (kbdint_rounds fuel ssh rpass next.1 s1),
     state_of (kbdint_rounds fuel ssh rpass next.1 s1),
     this_round ++ events_of (kbdint_rounds fuel ssh rpass next.1 s1)) /\
  (next.1 <> SSH_AUTH_INFO ->
   kbdint_rounds (S fuel) ssh rpass SSH_AUTH_INFO s = (Ok next.1, s1, this_round)).
Proof.
  intros Hn next s1 this_round.
  assert (Hstep : kbdint_rounds (S fuel) ssh rpass SSH_AUTH_INFO s =
    (outcome_of (kbdint_rounds fuel ssh rpass next.1 s1),
     state_of (kbdint_rounds fuel ssh rpass next.1 s1),
     this_round ++ events_of (kbdint_rounds fuel ssh rpass next.1 s1))).
  { subst this_round s1 next. unfold round_header.
    cbn [kbdint_rounds]. rewrite Z.eqb_refl.
    rewrite !bind_peek.
    replace (Z.to_nat (ssh_userauth_kbdint_getnprompts ssh (world s))) with 0%nat by lia.
    cbn [kbdint_answers].
    destruct (0 <? strlen (ssh_userauth_kbdint_getname ssh (world s)));
      destruct (0 <? strlen (ssh_userauth_kbdint_getinstruction ssh (world s)));
      repeat (first [rewrite bind_Rprintf | rewrite bind_ret | rewrite bind_native];
              cbv beta zeta);
      unfold outcome_of, state_of, events_of; reflexivity. }
  split; [exact Hstep|].
  intros Hterm. rewrite Hstep, kbdint_rounds_terminal by done.
  unfold outcome_of, state_of, events_of. simpl. by rewrite app_nil_r.
Qed.


Lemma password_cb_accepted_only rpass prompt s :
  accepted_only (events_of (password_cb rpass prompt s)).
Proof.
  eapply Forall_impl; [apply password_cb_submits_nothing|].
  intros e He Hr. by destruct e.
Qed.

Lemma app_cons_assoc {A} (l1 : list A) (x : A) (l2 : list A) :
  l1 ++ x :: l2 = (l1 ++ [x]) ++ l2.
Proof. by rewrite <- app_assoc. Qed.

Lemma ends_with_prepend (p : event -> Prop) (evs1 evs2 : list event) :
  none_of p evs1 -> ends_with p evs2 -> ends_with p (evs1 ++ evs2).
Proof.
  intros H1 (pre & e & -> & Hpre & He). exists (evs1 ++ pre), e.
  split; [by rewrite app_assoc|]. split; [by apply Forall_app|done].
Qed.

Lemma ends_with_last (p : event -> Prop) (pre post : list event) (e : event) evs :
  ends_with p evs -> evs = pre ++ e :: post -> p e -> post = [].
Proof.
  intros (pre' & e' & -> & Hpre & He') Heq He.
  destruct post as [|x post _] using rev_ind; [done|]. exfalso.
  rewrite app_comm_cons, app_assoc in Heq.
  apply app_inj_tail in Heq as [-> _].
  apply Forall_app in Hpre as [_ Hpre]. by inversion Hpre.
Qed.

Lemma none_of_middle (p : event -> Prop) (pre post : list event) (e : event) :
  none_of p (pre ++ e :: post) -> ~ p e.
Proof. intros H. apply Forall_app in H as [_ H]. by inversion H. Qed.

Lemma ends_rejected_prepend (evs1 evs2 : list event) :
  accepted_only evs1 -> ends_rejected evs2 -> ends_rejected (evs1 ++ evs2).
Proof. apply ends_with_prepend. Qed.

Lemma kbdint_answers_shape ssh rpass n iprompt s :
  let x := kbdint_answers ssh rpass n iprompt s in
  (outcome_of x = Ok true /\ ends_rejected (events_of x)) \/
  (outcome_of x <> Ok true /\ accepted_only (events_of x)).
Proof.
  revert iprompt s. induction n as [|n IH]; intros iprompt s x; subst x.
  { right. split; [done|constructor]. }
  cbn [kbdint_answers]. rewrite bind_peek, bind_run.
  set (prompt := ssh_userauth_kbdint_getprompt ssh iprompt (world s)).
  assert (Hcb := password_cb_accepted_only rpass prompt s).
  destruct (outcome_of (password_cb rpass prompt s)) as [r| | |];
    try (right; split; [done|exact Hcb]).
  cbv zeta. rewrite bind_read_as_string.
  destruct (terminated r.1);
    [|right; unfold outcome_of, events_of; simpl; rewrite app_nil_r; by split].
  rewrite bind_native. cbv zeta.
  set (s1 := state_of (password_cb rpass prompt s)) in *.
  set (reply := ssh_userauth_kbdint_setanswer ssh iprompt r.1 (world s1)).
  destruct (reply.1 <? 0) eqn:Hrc.
  - left. unfold outcome_of, state_of, events_of. simpl. split; [done|].
    exists (events_of (password_cb rpass prompt s)), (E_ssh_userauth_kbdint_setanswer ssh iprompt r.1 reply.1).
    split; [done|]. split; [exact Hcb|]. simpl. by apply Z.ltb_lt.
  - specialize (IH (iprompt + 1) {| world := reply.2; heap := heap s1 |}).
    cbv zeta in IH.
    assert (Hacc : accepted_only (events_of (password_cb rpass prompt s) ++
              [E_ssh_userauth_kbdint_setanswer ssh iprompt r.1 reply.1])).
    { apply Forall_app. split; [exact Hcb|]. constructor; [|constructor].
      simpl. apply Z.ltb_ge in Hrc. lia. }
    unfold outcome_of at 1 3, events_of at 1 4. simpl.
    destruct IH as [[Hok Hev]|[Hok Hev]].
    + left. split; [done|].
      rewrite app_cons_assoc. by apply ends_rejected_prepend.
    + right. split; [done|].
      rewrite app_cons_assoc. by apply Forall_app.
Qed.

Lemma aborts_or_accepted_prepend (evs : list event) (x : outcome Z * state W * list event) :
  accepted_only evs -> aborts_or_accepted x ->
  aborts_or_accepted (outcome_of x, state_of x, evs ++ events_of x).
Proof.
  intros Hacc [[Hok Hev]|Hev]; [left|right]; unfold outcome_of, events_of in *; simpl.
  - split; [done|]. by apply ends_rejected_prepend.
  - by apply Forall_app.
Qed.

Lemma aborts_or_accepted_bind {A} (m : M W A) (k : A -> M W Z) s :
  accepted_only (events_of (m s)) ->
  (forall a, outcome_of (m s) = Ok a -> aborts_or_accepted (k a (state_of (m s)))) ->
  aborts_or_accepted (bind m k s).
Proof.
  intros Hm Hk. rewrite bind_run.
  destruct (outcome_of (m s)) as [a| | |]; try (by right).
  by apply aborts_or_accepted_prepend, Hk.
Qed.

Lemma header_line_accepted (b : bool) (text : chars) s :
  accepted_only (events_of ((if b then Rprintf text else ret tt) s)).
Proof. destruct b; repeat constructor. by intros []. Qed.

Lemma kbdint_rounds_shape fuel ssh rpass rc s :
  aborts_or_accepted (kbdint_rounds fuel ssh rpass rc s).
Proof.
  revert rc s. induction fuel as [|fuel IH]; intros rc s.
  { right. simpl. destruct (rc =? SSH_AUTH_INFO); constructor. }
  cbn [kbdint_rounds]. destruct (rc =? SSH_AUTH_INFO); [|right; constructor].
  rewrite !bind_peek.
  apply aborts_or_accepted_bind; [apply header_line_accepted|intros _ _].
  generalize (state_of ((if 0 <? strlen (ssh_userauth_kbdint_getname ssh (world s))
                         then Rprintf (c_str (ssh_userauth_kbdint_getname ssh (world s)) ++ newline)
                         else ret tt) s)).
  intros s0.
  apply aborts_or_accepted_bind; [apply header_line_accepted|intros _ _].
  generalize (state_of ((if 0 <? strlen (ssh_userauth_kbdint_getinstruction ssh (world s))
                         then Rprintf (c_str (ssh_userauth_kbdint_getinstruction ssh (world s)) ++ newline)
                         else ret tt) s0)).
  intros s1.
  set (n := Z.to_nat (ssh_userauth_kbdint_getnprompts ssh (world s))).
  destruct (kbdint_answers_shape ssh rpass n 0 s1) as [[Hok Hev]|[Hok Hev]].
  - rewrite bind_run, Hok. cbv zeta. left.
    unfold outcome_of at 1, events_of at 1. simpl.
    split; [done|]. by rewrite app_nil_r.
  - apply aborts_or_accepted_bind; [done|]. intros [|] Ha; [done|].
    apply aborts_or_accepted_bind; [|intros rc' _; apply IH].
    unfold native. destruct (ssh_userauth_kbdint ssh _). repeat constructor. by intros [].
Qed.

(** C6: when libssh rejects the answer submitted for a prompt, the
    sub-protocol stops there: the rejected [ssh_userauth_kbdint_setanswer]
    is the last call it makes (no later prompt is resolved through the
    callback or answered, and no further challenge is requested) and its
    result is [SSH_AUTH_ERROR]. *)
Theorem rejected_answer_aborts fuel ssh rpass s (before after : list event) (e : event) :
  events_of (auth_interactive fuel ssh rpass s) = before ++ e :: after ->
  rejected e ->
  after = [] /\ outcome_of (auth_interactive fuel ssh rpass s) = Ok SSH_AUTH_ERROR.
Proof.
  intros Hev He.
  assert (Hshape : aborts_or_accepted (auth_interactive fuel ssh rpass s)).
  { unfold auth_interactive.
    apply aborts_or_accepted_bind; [|intros rc _; apply kbdint_rounds_shape].
    unfold native. destruct (ssh_userauth_kbdint ssh _). repeat constructor. by intros []. }
  destruct Hshape as [[Hok Hsh]|Hacc].
  - split; [|done]. by eapply (ends_with_last rejected before after e).
  - exfalso. eapply (none_of_middle rejected before after e); [|exact He].
    by rewrite <- Hev.
Qed.

End Interactive.

(** ** Teardown on the failure paths of [C_start_session] *)

Section Teardown.
Context {W : Type} {lib : LibSSH W}.

(** The one teardown routine of the connect path: [bail_if] on a failure
    code disconnects, frees, and raises, in that order. *)
Lemma bail_if_tears_down rc what ssh (s : state W) :
  rc <> SSH_OK ->
  bail_if rc what ssh s =
    (Raise (LibsshFailure what (strncpy (ssh_get_error ssh (world s)) 1024)),
     {| world := ssh_free ssh (ssh_disconnect ssh (world s)); heap := heap s |},
     [E_ssh_disconnect ssh; E_ssh_free ssh]).
Proof.
  intros H. apply Z.eqb_neq in H. unfold bail_if. rewrite H. simpl.
  rewrite bind_peek, !bind_native_. reflexivity.
Qed.

Lemma bail_if_ok what ssh (s : state W) : bail_if SSH_OK what ssh s = (Ok tt, s, []).
Proof. reflexivity. Qed.

(** Lines 139-146 never fail: no return code of the host-key calls is
    inspected, so no condition is raised and nothing is torn down there. *)
Lemma server_identity_never_fails ssh (s : state W) :
  outcome_of (server_identity ssh s) = Ok tt /\
  teardowns ssh (events_of (server_identity ssh s)) = (0%nat, 0%nat).
Proof.
  unfold server_identity. rewrite !bind_native. cbv zeta.
  unfold outcome_of, events_of. simpl.
  by destruct (_ =? 0).
Qed.

End Teardown.

(** C1, at the failing input: the server grants nothing to "none" and
    advertises none of the three methods.  [C_start_session] raises
    "Authentication failed, permission denied"; the session created by
    [ssh_new] has been neither disconnected nor freed, and no external
    pointer owns it. *)
Theorem authentication_failure_leaks_session :
  let x := Scenario.connect Scenario.no_methods Scenario.secret123 in
  outcome_of x = Raise AuthenticationFailed /\
  In (E_ssh_new 4096) (events_of x) /\
  teardowns 4096 (events_of x) = (0%nat, 0%nat) /\
  Fake.disconnects (world (state_of x)) = 0%nat /\
  Fake.frees (world (state_of x)) = 0%nat /\
  heap (state_of x) = ∅.
Proof. vm_compute. repeat split; auto. Qed.

(** C3, at the failing input: [ssh_get_publickey_hash] fails after a
    successful [ssh_connect].  [C_start_session] goes on to authenticate and
    returns a live session handle; nothing is raised and nothing is torn
    down. *)
Theorem host_key_failure_ignored :
  let x := Scenario.connect Scenario.no_fingerprint Scenario.secret123 in
  (exists l, outcome_of x = Ok (EXTPTRSXP l) /\
             addr <$> heap (state_of x) !! l = Some 4096) /\
  events_of x =
    [E_ssh_new 4096;
     E_ssh_options_set 4096 (SSH_OPTIONS_HOST (lit "example.org")) SSH_OK;
     E_ssh_options_set 4096 (SSH_OPTIONS_USER (lit "jeroen")) SSH_OK;
     E_ssh_options_set 4096 (SSH_OPTIONS_PORT 22) SSH_OK;
     E_ssh_set_callbacks 4096;
     E_ssh_connect 4096 SSH_OK;
     E_ssh_get_publickey 4096 SSH_OK;
     E_ssh_get_publickey_hash 8192 SSH_ERROR;
     E_ssh_is_server_known 4096 1;
     E_ssh_userauth_none 4096 SSH_AUTH_SUCCESS;
     E_ssh_get_issue_banner 4096] /\
  teardowns 4096 (events_of x) = (0%nat, 0%nat) /\
  In (E_ssh_userauth_none 4096 SSH_AUTH_DENIED)
     (events_of (Scenario.connect Scenario.no_host_key Scenario.secret123)).
Proof.
  split; [|split; [reflexivity|split; [reflexivity|]]].
  - eexists. split; [reflexivity|]. vm_compute. reflexivity.
  - vm_compute. tauto.
Qed.

(** ** The negotiation: [auth_any] *)

Section Tame.
Context {W : Type} {lib : LibSSH W}.
Implicit Types (P : event -> Prop) (s : state W) (rpass : SEXP W).


















End Tame.

Section Negotiation.
Context {W : Type} {lib : LibSSH W}.
Implicit Types (s : state W) (rpass : SEXP W).






































(** [auth_any] after the method list has been read. *)
Let after_list fuel ssh privkey (rpass : SEXP W) method : M W unit :=
  return_if (auth_publickey ssh privkey rpass method)
  (return_if (and_then (negb (Z.land method SSH_AUTH_METHOD_INTERACTIVE =? 0))
                (rc <- auth_interactive fuel ssh rpass ;; ret (rc =? SSH_AUTH_SUCCESS)))
  (return_if (and_then (negb (Z.land method SSH_AUTH_METHOD_PASSWORD =? 0))
                (rc <- auth_password ssh rpass ;; ret (rc =? SSH_AUTH_SUCCESS)))
  (Rf_error AuthenticationFailed))).

Lemma auth_any_run fuel ssh privkey rpass s :
  auth_any fuel ssh privkey rpass s =
    let none := ssh_userauth_none ssh (world s) in
    let s1 := {| world := none.2; heap := heap s |} in
    if none.1 =? SSH_AUTH_SUCCESS then (Ok tt, s1, [E_ssh_userauth_none ssh none.1])
    else
      let reply := ssh_userauth_list ssh (world s1) in
      let r := after_list fuel ssh privkey rpass reply.1
                 {| world := reply.2; heap := heap s1 |} in
      (outcome_of r, state_of r,
       E_ssh_userauth_none ssh none.1 :: E_ssh_userauth_list ssh reply.1 :: events_of r).
Proof.
  unfold auth_any. unfold return_if at 1.
  rewrite bind_assoc, bind_native. cbv zeta. rewrite bind_ret.
  destruct (_ =? SSH_AUTH_SUCCESS); [reflexivity|].
  rewrite bind_native. cbv zeta. reflexivity.
Qed.


(** *** Every advertised method is attempted *)











(** For every library: when "none" is refused and none of the three method
    bits is advertised, [auth_any] raises "Authentication failed, permission
    denied" after exactly two calls, neither of which releases the session. *)
Lemma exhausted_without_teardown fuel ssh privkey rpass s :
  let none := ssh_userauth_none ssh (world s) in
  let reply := ssh_userauth_list ssh none.2 in
  none.1 <> SSH_AUTH_SUCCESS ->
  Z.land reply.1 SSH_AUTH_METHOD_PUBLICKEY = 0 ->
  Z.land reply.1 SSH_AUTH_METHOD_INTERACTIVE = 0 ->
  Z.land reply.1 SSH_AUTH_METHOD_PASSWORD = 0 ->
  auth_any fuel ssh privkey rpass s =
    (Raise AuthenticationFailed, {| world := reply.2; heap := heap s |},
     [E_ssh_userauth_none ssh none.1; E_ssh_userauth_list ssh reply.1]).
Proof.
  intros none reply Hnone Hpk Hki Hpw. rewrite auth_any_run. cbv zeta.
  fold none. apply Z.eqb_neq in Hnone. rewrite Hnone. simpl. fold reply.
  unfold after_list, auth_publickey, return_if, and_then.
  rewrite Hpk, Hki, Hpw. reflexivity.
Qed.


End Negotiation.

(** * Concrete runs *)

Module Runs.
Import Fake Scenario.

(** C8 on a live handle: one disconnect, one free, pointer cleared, and a
    second call changes nothing. *)
Lemma disconnect_idempotent_witness :
  heap live_handle !! 1%positive =
    Some {| addr := 4096; finalizer := true; class := Some "ssh_session" |} /\
  (4096 <> NULL ->
     C_disconnect_session (EXTPTRSXP 1) live_handle =
       (Ok R_NilValue,
        {| world := ssh_free 4096 (ssh_disconnect 4096 (world live_handle));
           heap := alter clear 1%positive (heap live_handle) |},
        [E_ssh_disconnect 4096; E_ssh_free 4096])
     /\ (addr <$> alter clear 1%positive (heap live_handle) !! 1%positive) = Some NULL) /\
  (C_disconnect_session (EXTPTRSXP 1) ;; C_disconnect_session (EXTPTRSXP 1)) live_handle =
    C_disconnect_session (EXTPTRSXP 1) live_handle.
Proof.
  assert (H : heap live_handle !! 1%positive =
            Some {| addr := 4096; finalizer := true; class := Some "ssh_session" |})
    by reflexivity.
  split; [exact H|].
  exact (proj2 (disconnect_idempotent live_handle 1%positive _ H)).
Defined.

(** C9 on a dead handle. *)
Lemma dead_handle_never_dereferenced_witness :
  heap dead_handle !! 1%positive =
    Some {| addr := NULL; finalizer := true; class := Some "ssh_session" |} /\
  ssh_ptr_get (EXTPTRSXP 1) dead_handle = (Raise SessionDead, dead_handle, []) /\
  events_of (C_disconnect_session (EXTPTRSXP 1) dead_handle) = [].
Proof.
  assert (H : heap dead_handle !! 1%positive =
            Some {| addr := NULL; finalizer := true; class := Some "ssh_session" |})
    by reflexivity.
  split; [exact H|].
  destruct (dead_handle_never_dereferenced dead_handle 1%positive _ H eq_refl)
    as (Hget & _ & _ & Hfin).
  split; [exact Hget|exact Hfin].
Defined.

(** C4 at the literal ["secret123"]. *)
Lemma literal_secret_returned_witness :
  (NUL ∉ lit "secret123") /\ (length (lit "secret123") < 1024)%nat /\
  resolves_to secret123 (lit "Password: ") (start password_only) (lit "secret123").
Proof.
  assert (Hn : NUL ∉ lit "secret123").
  { intros H. vm_compute in H. repeat (apply elem_of_cons in H as [H|H]; [discriminate H|]).
    by apply elem_of_nil in H. }
  assert (Hl : (length (lit "secret123") < 1024)%nat) by (vm_compute; lia).
  split; [exact Hn|]. split; [exact Hl|].
  exact (proj2 (literal_secret_returned (start password_only) (lit "secret123") []
                  (lit "Password: ") Hn Hl)).
Defined.

(** C5 at a callback that returns ["hunter2"]. *)
Lemma callback_credential_witness :
  resolved_secret hunter2 (lit "Password: ") (boot password_only) = Some (lit "hunter2") /\
  (forall c, outcome_of (password_cb hunter2 (lit "Password: ") (start password_only))
             <> Raise c) /\
  resolves_to hunter2 (lit "Password: ") (start password_only) (lit "hunter2").
Proof.
  destruct (callback_credential (start password_only)
              (fun _ w => (Some (STRSXP [lit "hunter2"]), w)) (lit "Password: "))
    as (_ & Hquiet & Hvalue).
  split; [reflexivity|]. split.
  - exact (Hquiet [lit "hunter2"] eq_refl).
  - refine (proj2 (Hvalue (lit "hunter2") [] eq_refl _ _)).
    + intros H. vm_compute in H.
      repeat (apply elem_of_cons in H as [H|H]; [discriminate H|]).
      by apply elem_of_nil in H.
    + vm_compute. lia.
Defined.

(** C4 fails for a literal secret of 1025 bytes: the buffer holds its first
    1024 bytes and no terminator, not the secret. *)
Lemma literal_secret_truncated :
  ~ resolves_to long_literal (lit "Password: ") (start password_only) long_secret.
Proof.
  intros (buf & n & s' & evs & Hrun & Hterm & Hstr).
  unfold long_literal in Hrun. rewrite password_cb_literal in Hrun.
  injection Hrun as <- _ _ _. vm_compute in Hterm. discriminate Hterm.
Qed.

(** C5 fails for a callback that returns a string of 1025 bytes: no condition
    is raised, but what [password_cb] returns is not that string. *)
Lemma callback_secret_truncated :
  resolved_secret long_callback (lit "Password: ") (boot password_only) = Some long_secret /\
  ~ resolves_to long_callback (lit "Password: ") (start password_only) long_secret.
Proof.
  split; [reflexivity|].
  intros (buf & n & s' & evs & Hrun & Hterm & Hstr).
  unfold long_callback in Hrun. rewrite password_cb_closure in Hrun.
  cbv zeta in Hrun. simpl in Hrun.
  injection Hrun as <- _ _ _. vm_compute in Hterm. discriminate Hterm.
Qed.


(** C7 on a first round without prompts: the state is the one left by the
    first challenge request, and the credential is of an unsupported type. *)
Lemma zero_prompt_round_witness :
  let s := State (challenge (boot empty_rounds)).2 ∅ in
  ssh_userauth_kbdint_getnprompts 4096 (world s) <= 0 /\
  kbdint_rounds 8 4096 unsupported SSH_AUTH_INFO s =
    (outcome_of (kbdint_rounds 7 4096 unsupported SSH_AUTH_INFO
                   (State (challenge (world s)).2 ∅)),
     state_of (kbdint_rounds 7 4096 unsupported SSH_AUTH_INFO
                 (State (challenge (world s)).2 ∅)),
     [E_ssh_userauth_kbdint 4096 SSH_AUTH_INFO] ++
     events_of (kbdint_rounds 7 4096 unsupported SSH_AUTH_INFO
                  (State (challenge (world s)).2 ∅))).
Proof.
  intros s.
  assert (H : ssh_userauth_kbdint_getnprompts 4096 (world s) <= 0)
    by (vm_compute; discriminate).
  split; [exact H|].
  exact (proj1 (zero_prompt_round 7 4096 unsupported s H)).
Defined.

(** C6 on a round of three prompts whose second answer is rejected. *)
Lemma rejected_answer_aborts_witness :
  let x := auth_interactive 8 4096 secret123 (start second_answer_rejected) in
  let before := [E_ssh_userauth_kbdint 4096 SSH_AUTH_INFO;
                 E_ssh_userauth_kbdint_setanswer 4096 0 (strncpy (lit "secret123") 1024) 0] in
  let e := E_ssh_userauth_kbdint_setanswer 4096 1 (strncpy (lit "secret123") 1024) (-1) in
  events_of x = before ++ e :: [] /\ rejected e /\
  (([] : list event) = [] /\ outcome_of x = Ok SSH_AUTH_ERROR).
Proof.
  intros x before e.
  assert (Hev : events_of x = before ++ e :: []) by (vm_compute; reflexivity).
  assert (He : rejected e) by (vm_compute; reflexivity).
  split; [exact Hev|]. split; [exact He|].
  exact (rejected_answer_aborts 8 4096 secret123 (start second_answer_rejected)
           before [] e Hev He).
Defined.

(** Scenario of the specification: the server advertises only password
    authentication and the credential is the literal ["secret123"]. *)
Example password_scenario :
  let x := connect password_only secret123 in
  (exists l, outcome_of x = Ok (EXTPTRSXP l)) /\
  filter (fun e => is_Some (submitted_buffer e)) (events_of x) =
    [E_ssh_userauth_password 4096 (strncpy (lit "secret123") 1024) SSH_AUTH_SUCCESS] /\
  c_str (strncpy (lit "secret123") 1024) = lit "secret123".
Proof.
  split; [eexists; reflexivity|]. split; vm_compute; reflexivity.
Qed.

(** Scenario of the specification: public key and password are advertised,
    no key is supplied, automatic discovery fails, and the password comes from
    a callback. *)
Example callback_scenario :
  let c := server 1 SSH_AUTH_DENIED
             (Z.lor SSH_AUTH_METHOD_PUBLICKEY SSH_AUTH_METHOD_PASSWORD) []
             SSH_AUTH_DENIED SSH_AUTH_DENIED in
  events_of (auth_any 8 4096 NULL hunter2 (start c)) =
    [E_ssh_userauth_none 4096 SSH_AUTH_DENIED;
     E_ssh_userauth_list 4096 6;
     E_ssh_userauth_publickey_auto 4096 SSH_AUTH_DENIED;
     E_R_tryEval (lit "Please enter your password");
     E_ssh_userauth_password 4096 (strncpy (lit "hunter2") 1024) SSH_AUTH_DENIED].
Proof. vm_compute. reflexivity. Qed.

(** Two rounds without prompts and an unsupported credential: three
    challenge requests, no condition, the terminal result is returned. *)
Example empty_rounds_run :
  auth_interactive 8 4096 unsupported (start empty_rounds) =
    (Ok SSH_AUTH_SUCCESS,
     State {| cfg := empty_rounds; pending := []; current := None;
              disconnects := 0; frees := 0 |} ∅,
     [E_ssh_userauth_kbdint 4096 SSH_AUTH_INFO;
      E_ssh_userauth_kbdint 4096 SSH_AUTH_INFO;
      E_Rprintf (lit "OTP" ++ newline);
      E_ssh_userauth_kbdint 4096 SSH_AUTH_SUCCESS]).
Proof. vm_compute. reflexivity. Qed.

(** Failures caught by [bail_if] tear the session down exactly once. *)
Example connect_failure_tears_down :
  let c := {| session := 4096; host_rc := SSH_OK; user_rc := SSH_OK; port_rc := SSH_OK;
              connect_rc := SSH_ERROR; error_text := lit "Connection refused";
              publickey_rc := SSH_OK; server_key := 8192; hash_rc := SSH_OK;
              server_hash := None; server_known := 1;
              none_rc := SSH_AUTH_DENIED; methods := 0;
              userauth_publickey_rc := SSH_AUTH_DENIED; auto_prompts := [];
              auto_rc := SSH_AUTH_DENIED; rounds := []; kbdint_final := SSH_AUTH_DENIED;
              password := []; password_reject := SSH_AUTH_DENIED;
              banner := None; import_prompts := []; import_rc := SSH_OK;
              imported_key := 0 |} in
  let x := connect c secret123 in
  teardowns 4096 (events_of x) = (1%nat, 1%nat) /\
  conditionMessage (match outcome_of x with Raise c => c | _ => SessionDead end) =
    "libssh failure at 'connect': Connection refused".
Proof. vm_compute. split; reflexivity. Qed.

End Runs.

(** * Further properties of session.c *)

(** ** Life-cycle discipline *)

Section DisciplineRules.
Context {W : Type} {lib : LibSSH W}.
Implicit Types (P : event -> Prop) (s : state W) (rpass : SEXP W).

Lemma not_bailed_Ok {A} (a : A) : ~ bailed (Ok a).
Proof. by intros (? & ? & ?). Qed.

Lemma not_bailed_Undefined {A} : ~ bailed (@Undefined A).
Proof. by intros (? & ? & ?). Qed.

Lemma not_bailed_Diverge {A} : ~ bailed (@Diverge A).
Proof. by intros (? & ? & ?). Qed.

Lemma bailed_Raise {A B} c : bailed (@Raise A c) <-> bailed (@Raise B c).
Proof. split; intros (w & b & [= ->]); by exists w, b. Qed.

Lemma disciplined_ret {A} P ssh (a : A) : disciplined P ssh (ret (W:=W) a).
Proof. intros s. right. split; [apply not_bailed_Ok|constructor]. Qed.

Lemma disciplined_bind {A B} P ssh (m : M W A) (k : A -> M W B) :
  disciplined P ssh m -> (forall a, disciplined P ssh (k a)) ->
  disciplined P ssh (bind m k).
Proof.
  intros Hm Hk s. rewrite bind_run.
  destruct (Hm s) as [[Hb (pre & Hev & Hpre)]|[Hb Hev]].
  - destruct (outcome_of (m s)) as [a|c| |].
    + by destruct (not_bailed_Ok a).
    + left. split; [by apply (bailed_Raise (A:=A))|by exists pre].
    + by destruct (@not_bailed_Undefined A).
    + by destruct (@not_bailed_Diverge A).
  - destruct (outcome_of (m s)) as [a|c| |].
    + cbv zeta. destruct (Hk a (state_of (m s))) as [[Hb2 (pre & Hev2 & Hpre)]|[Hb2 Hev2]].
      * left. split; [done|]. exists (events_of (m s) ++ pre).
        unfold events_of at 1. simpl. rewrite Hev2.
        split; [by rewrite app_assoc|by apply Forall_app].
      * right. split; [done|]. by apply Forall_app.
    + right. split; [|done]. intros Hc. apply Hb. by apply (bailed_Raise (B:=A)) in Hc.
    + right. split; [apply not_bailed_Undefined|done].
    + right. split; [apply not_bailed_Diverge|done].
Qed.

Lemma disciplined_weaken {A} P P' ssh (m : M W A) :
  (forall e, P e -> P' e) -> disciplined P ssh m -> disciplined P' ssh m.
Proof.
  intros HP Hm s. destruct (Hm s) as [[Hb (pre & Hev & Hpre)]|[Hb Hev]]; [left|right].
  - split; [done|]. exists pre. split; [done|]. by eapply Forall_impl.
  - split; [done|]. by eapply Forall_impl.
Qed.

Lemma disciplined_if {A} P ssh (b : bool) (m1 m2 : M W A) :
  disciplined P ssh m1 -> disciplined P ssh m2 -> disciplined P ssh (if b then m1 else m2).
Proof. by destruct b. Qed.

Lemma disciplined_peek {A} P ssh (f : W -> A) : disciplined P ssh (peek f).
Proof. intros s. right. split; [apply not_bailed_Ok|constructor]. Qed.

Lemma disciplined_native {A} P ssh (f : W -> A * W) (ev : A -> event) :
  (forall a, P (ev a)) -> disciplined P ssh (native f ev).
Proof.
  intros H s. right. unfold native. destruct (f (world s)).
  split; [apply not_bailed_Ok|by repeat constructor].
Qed.

Lemma disciplined_Rprintf P ssh text :
  P (E_Rprintf text) -> disciplined P ssh (Rprintf (W:=W) text).
Proof. intros H s. right. split; [apply not_bailed_Ok|by repeat constructor]. Qed.

Lemma disciplined_Rf_error {A} P ssh c :
  (forall what buf, c <> LibsshFailure what buf) ->
  disciplined P ssh (Rf_error (W:=W) (A:=A) c).
Proof.
  intros H s. right. split; [|constructor]. intros (w & b & [= ->]). by eapply H.
Qed.

Lemma disciplined_undefined {A} P ssh : disciplined P ssh (undefined (W:=W) (A:=A)).
Proof. intros s. right. split; [apply not_bailed_Undefined|constructor]. Qed.

Lemma disciplined_diverge {A} P ssh : disciplined P ssh (diverge (W:=W) (A:=A)).
Proof. intros s. right. split; [apply not_bailed_Diverge|constructor]. Qed.

Lemma disciplined_STRING_ELT0 P ssh (x : SEXP W) : disciplined P ssh (STRING_ELT0 x).
Proof.
  destruct x as [|?|[|??]|?|?];
    first [apply disciplined_ret | apply disciplined_undefined].
Qed.

Lemma disciplined_R_tryEval P ssh (f : SEXP W) arg :
  P (E_R_tryEval arg) -> disciplined P ssh (R_tryEval f arg).
Proof.
  intros H s. right. unfold R_tryEval.
  destruct f as [| | |g|]; try (split; [apply not_bailed_Ok|by repeat constructor]).
  destruct (g arg (world s)). split; [apply not_bailed_Ok|by repeat constructor].
Qed.

Lemma disciplined_bail_if P ssh rc what : disciplined P ssh (bail_if (W:=W) rc what ssh).
Proof.
  intros s. destruct (decide (rc = SSH_OK)) as [->|Hrc].
  - right. split; [apply not_bailed_Ok|constructor].
  - left. rewrite bail_if_tears_down by done. split; [by eexists _, _|].
    exists []. by split.
Qed.

End DisciplineRules.

(** The side condition of a call: its event is of the allowed kind. *)
Ltac discipline_leaf :=
  intros; unfold calm, traffic, peaceful; cbn; first [done | by repeat split | tauto].

(** One step of a proof that a function is [disciplined]. *)
Ltac discipline_step :=
  first
    [ apply disciplined_bail_if
    | apply disciplined_ret
    | apply disciplined_bind; [|intros ?]
    | apply disciplined_if
    | apply disciplined_peek
    | apply disciplined_STRING_ELT0
    | apply disciplined_undefined
    | apply disciplined_diverge
    | apply disciplined_native; discipline_leaf
    | apply disciplined_Rprintf; discipline_leaf
    | apply disciplined_R_tryEval; discipline_leaf
    | apply disciplined_Rf_error; by intros
    | match goal with
      | |- disciplined _ _ (match ?x with _ => _ end) => destruct x
      end ].

(** [known] closes the calls of functions already shown to be disciplined. *)
Ltac discipline_with known := cbv zeta; repeat first [known | discipline_step].

Ltac discipline := discipline_with fail.

Section DisciplineOfCode.
Context {W : Type} {lib : LibSSH W}.
Implicit Types (s : state W) (rpass : SEXP W).

Lemma disciplined_password_cb ssh rpass prompt :
  disciplined traffic ssh (password_cb rpass prompt).
Proof. unfold password_cb. discipline. Qed.

Lemma disciplined_auth_function_calls ssh prompts rpass :
  disciplined traffic ssh (auth_function_calls prompts rpass).
Proof.
  induction prompts as [|p ps IH]; simpl; [apply disciplined_ret|].
  unfold my_auth_callback.
  discipline_with ltac:(first [apply disciplined_password_cb | apply IH]).
Qed.

Lemma disciplined_auth_password ssh rpass :
  disciplined traffic ssh (auth_password ssh rpass).
Proof.
  unfold auth_password. discipline_with ltac:(apply disciplined_password_cb).
Qed.

Lemma disciplined_kbdint_answers ssh rpass n iprompt :
  disciplined traffic ssh (kbdint_answers ssh rpass n iprompt).
Proof.
  revert iprompt. induction n as [|n IH]; intros iprompt; simpl;
    discipline_with ltac:(first [apply disciplined_password_cb | apply IH]).
Qed.

Lemma disciplined_kbdint_rounds fuel ssh rpass rc :
  disciplined traffic ssh (kbdint_rounds fuel ssh rpass rc).
Proof.
  revert rc. induction fuel as [|fuel IH]; intros rc; simpl;
    discipline_with ltac:(first [apply disciplined_kbdint_answers | apply IH]).
Qed.

Lemma disciplined_auth_any fuel ssh privkey rpass :
  disciplined traffic ssh (auth_any fuel ssh privkey rpass).
Proof.
  unfold auth_any, return_if, auth_publickey, and_then, auth_interactive,
    userauth_publickey_auto.
  discipline_with
    ltac:(first [apply disciplined_auth_function_calls | apply disciplined_kbdint_rounds
                | apply disciplined_auth_password]).
Qed.

Lemma disciplined_server_identity ssh :
  disciplined traffic ssh (server_identity (W:=W) ssh).
Proof. unfold server_identity. discipline. Qed.

End DisciplineOfCode.

(** ** External pointers are left alone *)

Section FrameRules.
Context {W : Type} {lib : LibSSH W}.
Implicit Types (s : state W) (rpass : SEXP W).

Lemma frame_ret {A} (a : A) : frame (ret (W:=W) a).
Proof. by intros s. Qed.

Lemma frame_bind {A B} (m : M W A) (k : A -> M W B) :
  frame m -> (forall a, frame (k a)) -> frame (bind m k).
Proof.
  intros Hm Hk s. rewrite bind_run. specialize (Hm s).
  destruct (outcome_of (m s)) as [a| | |]; try done.
  cbv zeta. unfold state_of at 1. simpl. by rewrite Hk.
Qed.

Lemma frame_if {A} (b : bool) (m1 m2 : M W A) :
  frame m1 -> frame m2 -> frame (if b then m1 else m2).
Proof. by destruct b. Qed.

Lemma frame_peek {A} (f : W -> A) : frame (peek f).
Proof. by intros s. Qed.

Lemma frame_native {A} (f : W -> A * W) (ev : A -> event) : frame (native f ev).
Proof. intros s. unfold native. by destruct (f (world s)). Qed.

Lemma frame_native_ (f : W -> W) (ev : event) : frame (native_ f ev).
Proof. by intros s. Qed.

Lemma frame_Rprintf text : frame (Rprintf (W:=W) text).
Proof. by intros s. Qed.

Lemma frame_Rf_error {A} c : frame (Rf_error (W:=W) (A:=A) c).
Proof. by intros s. Qed.

Lemma frame_undefined {A} : frame (undefined (W:=W) (A:=A)).
Proof. by intros s. Qed.

Lemma frame_diverge {A} : frame (diverge (W:=W) (A:=A)).
Proof. by intros s. Qed.

Lemma frame_STRING_ELT0 (x : SEXP W) : frame (STRING_ELT0 x).
Proof. destruct x as [|?|[|??]|?|?]; first [apply frame_ret | apply frame_undefined]. Qed.

Lemma frame_R_tryEval (f : SEXP W) arg : frame (R_tryEval f arg).
Proof.
  intros s. unfold R_tryEval. destruct f as [| | |g|]; try done.
  by destruct (g arg (world s)).
Qed.

End FrameRules.

Ltac frame_step :=
  first
    [ apply frame_ret
    | apply frame_bind; [|intros ?]
    | apply frame_if
    | apply frame_peek
    | apply frame_native
    | apply frame_native_
    | apply frame_Rprintf
    | apply frame_R_tryEval
    | apply frame_STRING_ELT0
    | apply frame_Rf_error
    | apply frame_undefined
    | apply frame_diverge
    | match goal with
      | |- frame (match ?x with _ => _ end) => destruct x
      end ].

Ltac framing_with known := cbv zeta; repeat first [known | frame_step].

Ltac framing := framing_with fail.

Section FrameOfCode.
Context {W : Type} {lib : LibSSH W}.
Implicit Types (s : state W) (rpass : SEXP W).

Lemma frame_bail_if rc what ssh : frame (bail_if (W:=W) rc what ssh).
Proof. unfold bail_if. framing. Qed.

Lemma frame_password_cb rpass prompt : frame (password_cb rpass prompt).
Proof. unfold password_cb. framing. Qed.

Lemma frame_auth_function_calls prompts rpass : frame (auth_function_calls prompts rpass).
Proof.
  induction prompts as [|p ps IH]; simpl; [apply frame_ret|].
  unfold my_auth_callback.
  framing_with ltac:(first [apply frame_password_cb | apply IH]).
Qed.

Lemma frame_auth_password ssh rpass : frame (auth_password ssh rpass).
Proof.
  unfold auth_password.
  framing_with ltac:(first [apply frame_password_cb | apply frame_bail_if]).
Qed.

Lemma frame_kbdint_answers ssh rpass n iprompt : frame (kbdint_answers ssh rpass n iprompt).
Proof.
  revert iprompt. induction n as [|n IH]; intros iprompt; simpl;
    framing_with ltac:(first [apply frame_password_cb | apply IH]).
Qed.

Lemma frame_kbdint_rounds fuel ssh rpass rc : frame (kbdint_rounds fuel ssh rpass rc).
Proof.
  revert rc. induction fuel as [|fuel IH]; intros rc; simpl;
    framing_with ltac:(first [apply frame_kbdint_answers | apply IH]).
Qed.

Lemma frame_auth_any fuel ssh privkey rpass : frame (auth_any fuel ssh privkey rpass).
Proof.
  unfold auth_any, return_if, auth_publickey, and_then, auth_interactive,
    userauth_publickey_auto.
  framing_with
    ltac:(first [apply frame_auth_function_calls | apply frame_kbdint_rounds
                | apply frame_auth_password]).
Qed.

Lemma frame_read_privkey keyfile rpass : frame (read_privkey keyfile rpass).
Proof.
  unfold read_privkey. framing_with ltac:(apply frame_auth_function_calls).
Qed.

Lemma frame_server_identity ssh : frame (server_identity (W:=W) ssh).
Proof. unfold server_identity. framing. Qed.

End FrameOfCode.

(** ** Connection attempts: [C_start_session] *)

Section Handle.
Context {W : Type} {lib : LibSSH W}.
Implicit Types (s : state W).

Lemma ssh_ptr_create_run ssh s :
  let l := fresh (dom (heap s)) in
  heap s !! l = None /\
  ssh_ptr_create ssh s =
    (Ok (EXTPTRSXP l),
     {| world := world s; heap := <[l := session_handle_of ssh]> (heap s) |}, []).
Proof.
  intros l. split; [apply not_elem_of_dom, is_fresh|].
  unfold ssh_ptr_create, bind, R_MakeExternalPtr. fold l. simpl.
  by rewrite !alter_insert_eq.
Qed.

Lemma creates_ssh_ptr_create ssh : creates (W:=W) ssh (ssh_ptr_create ssh).
Proof.
  intros s. destruct (ssh_ptr_create_run ssh s) as [Hfresh ->].
  unfold outcome_of, state_of. simpl. by eexists.
Qed.

Lemma creates_bind {A} ssh (m : M W A) (k : A -> M W (SEXP W)) :
  frame m -> (forall a, creates ssh (k a)) -> creates ssh (bind m k).
Proof.
  intros Hm Hk s. rewrite bind_run. specialize (Hm s).
  destruct (outcome_of (m s)) as [a| | |]; try done.
  cbv zeta. specialize (Hk a (state_of (m s))). rewrite Hm in Hk. exact Hk.
Qed.

Lemma disciplined_ssh_ptr_create P ssh ssh' :
  disciplined (W:=W) P ssh (ssh_ptr_create ssh').
Proof.
  intros s. destruct (ssh_ptr_create_run ssh' s) as [_ ->].
  right. split; [apply not_bailed_Ok|constructor].
Qed.

End Handle.

(** Projections of a run written as a triple. *)
Ltac run_simpl :=
  repeat match goal with
         | |- context [outcome_of (?o, ?st, ?evs)] => change (outcome_of (o, st, evs)) with o
         | |- context [state_of (?o, ?st, ?evs)] => change (state_of (o, st, evs)) with st
         | |- context [events_of (?o, ?st, ?evs)] => change (events_of (o, st, evs)) with evs
         end.

Section Attempt.
Context {W : Type} {lib : LibSSH W}.
Implicit Types (s : state W) (rpass : SEXP W).

Lemma bind_ext {A B} (m : M W A) (k k' : A -> M W B) s :
  (forall a s', k a s' = k' a s') -> bind m k s = bind m k' s.
Proof. intros H. rewrite !bind_run. destruct (outcome_of (m s)); by rewrite ?H. Qed.

(** Lines 113-122: what [C_start_session] does before it creates a session. *)
Let session_prefix (rhost ruser keyfile rpass : SEXP W) : M W (Z * chars * chars) :=
  privkey <- read_privkey keyfile rpass ;;
  host <- STRING_ELT0 rhost ;;
  user <- STRING_ELT0 ruser ;;
  ret (privkey, host, user).

(** Lines 124-158: what it does with the session [ssh_new] returned. *)
Let session_body (fuel : nat) (ssh privkey : Z) (host user : chars) (port : Z)
    (rpass : SEXP W) : M W (SEXP W) :=
  rc <- native (ssh_options_set ssh (SSH_OPTIONS_HOST host))
               (E_ssh_options_set ssh (SSH_OPTIONS_HOST host)) ;;
  bail_if rc "set host" ssh ;;
  rc <- native (ssh_options_set ssh (SSH_OPTIONS_USER user))
               (E_ssh_options_set ssh (SSH_OPTIONS_USER user)) ;;
  bail_if rc "set user" ssh ;;
  rc <- native (ssh_options_set ssh (SSH_OPTIONS_PORT port))
               (E_ssh_options_set ssh (SSH_OPTIONS_PORT port)) ;;
  bail_if rc "set port" ssh ;;
  native (ssh_set_callbacks ssh) (fun _ => E_ssh_set_callbacks ssh) ;;
  rc <- native (ssh_connect ssh) (E_ssh_connect ssh) ;;
  bail_if rc "connect" ssh ;;
  server_identity ssh ;;
  auth_any fuel ssh privkey rpass ;;
  banner <- native (ssh_get_issue_banner ssh) (fun _ => E_ssh_get_issue_banner ssh) ;;
  match banner with
  | Some b => Rprintf (c_str b ++ newline)
  | None => ret tt
  end ;;
  ssh_ptr_create ssh.

Lemma C_start_session_run fuel rhost rport ruser keyfile rpass s :
  C_start_session fuel rhost rport ruser keyfile rpass s =
    (p <- session_prefix rhost ruser keyfile rpass ;;
     ssh <- native ssh_new E_ssh_new ;;
     session_body fuel ssh p.1.1 p.1.2 p.2 (Rf_asInteger rport) rpass) s.
Proof.
  unfold C_start_session, session_prefix.
  rewrite bind_assoc. apply bind_ext. intros privkey s1.
  rewrite bind_assoc. apply bind_ext. intros host s2.
  rewrite bind_assoc. apply bind_ext. intros user s3.
  by rewrite bind_ret.
Qed.

Lemma traffic_calm e : traffic e -> calm e.
Proof.
  intros [Hs Hl]. split; [done|].
  destruct e; simpl in *; try discriminate; tauto.
Qed.

Lemma calm_not_connected e : calm e -> ~ connected e.
Proof. by intros (_ & _ & ?). Qed.

Lemma calm_peaceful e : calm e -> peaceful e.
Proof. by intros [? _]. Qed.

(** A computation that is disciplined for two different sessions never
    takes the way of [bail_if]. *)
Lemma never_bails {A} P (m : M W A) s :
  (forall ssh, disciplined P ssh m) ->
  ~ bailed (outcome_of (m s)) /\ Forall P (events_of (m s)).
Proof.
  intros H. destruct (H 0 s) as [[_ (pre0 & H0 & _)]|?]; [|done].
  destruct (H 1 s) as [[_ (pre1 & H1 & _)]|?]; [|done].
  rewrite H0 in H1. exfalso.
  change (pre0 ++ [E_ssh_disconnect 0; E_ssh_free 0])
    with (pre0 ++ [E_ssh_disconnect 0] ++ [E_ssh_free 0]) in H1.
  change (pre1 ++ [E_ssh_disconnect 1; E_ssh_free 1])
    with (pre1 ++ [E_ssh_disconnect 1] ++ [E_ssh_free 1]) in H1.
  rewrite !app_assoc in H1. by apply app_inj_tail in H1 as [_ [=]].
Qed.

Lemma disciplined_read_privkey ssh keyfile rpass :
  disciplined calm ssh (read_privkey keyfile rpass).
Proof.
  unfold read_privkey.
  discipline_with
    ltac:(apply (disciplined_weaken traffic calm);
          [apply traffic_calm|apply disciplined_auth_function_calls]).
Qed.

Lemma disciplined_session_prefix ssh rhost ruser keyfile rpass :
  disciplined calm ssh (session_prefix rhost ruser keyfile rpass).
Proof.
  unfold session_prefix.
  discipline_with ltac:(apply disciplined_read_privkey).
Qed.

Lemma frame_session_prefix rhost ruser keyfile rpass :
  frame (session_prefix rhost ruser keyfile rpass).
Proof. unfold session_prefix. framing_with ltac:(apply frame_read_privkey). Qed.

Lemma disciplined_session_body fuel ssh privkey host user port rpass :
  disciplined peaceful ssh (session_body fuel ssh privkey host user port rpass).
Proof.
  unfold session_body.
  discipline_with
    ltac:(first
      [ apply disciplined_ssh_ptr_create
      | apply (disciplined_weaken traffic peaceful);
        [by intros ? [_ ?]
        |first [apply disciplined_server_identity | apply disciplined_auth_any]] ]).
Qed.

Lemma creates_session_body fuel ssh privkey host user port rpass :
  creates ssh (session_body fuel ssh privkey host user port rpass).
Proof.
  unfold session_body.
  repeat first
    [ apply creates_ssh_ptr_create
    | apply creates_bind;
      [framing_with ltac:(first [apply frame_bail_if | apply frame_server_identity
                                | apply frame_auth_any])
      |intros ?] ].
Qed.

Lemma lifecycle_calls_app (evs1 evs2 : list event) :
  lifecycle_calls (evs1 ++ evs2) = lifecycle_calls evs1 ++ lifecycle_calls evs2.
Proof. apply filter_app. Qed.

Lemma lifecycle_calls_peaceful (evs : list event) :
  Forall peaceful evs -> lifecycle_calls evs = [].
Proof.
  unfold lifecycle_calls, peaceful. induction 1 as [|e evs He _ IH]; [done|].
  rewrite filter_cons. case_decide; [congruence|done].
Qed.

(** X1: the life cycle of the native session in a connection attempt.
    Whatever libssh and the credential do, the calls that create and release
    a session are one of: none at all (the attempt ended before [ssh_new]);
    [ssh_new] alone (the session is still open when [C_start_session]
    returns or raises); or [ssh_new], [ssh_disconnect], [ssh_free] of that
    same session, in this order, the last two being the last calls of the
    attempt, which ends in the condition of [bail_if].  The session is never
    disconnected or freed twice. *)
Theorem session_released_at_most_once fuel rhost rport ruser keyfile rpass s :
  let x := C_start_session fuel rhost rport ruser keyfile rpass s in
  (lifecycle_calls (events_of x) = [] /\ ~ bailed (outcome_of x) /\
   forall ptr, outcome_of x <> Ok ptr) \/
  (exists ssh, lifecycle_calls (events_of x) = [E_ssh_new ssh] /\
               ~ bailed (outcome_of x)) \/
  (exists ssh pre,
      lifecycle_calls (events_of x) =
        [E_ssh_new ssh; E_ssh_disconnect ssh; E_ssh_free ssh] /\
      bailed (outcome_of x) /\
      events_of x = pre ++ [E_ssh_disconnect ssh; E_ssh_free ssh]).
Proof.
  intros x. subst x. rewrite C_start_session_run, bind_run.
  destruct (never_bails calm (session_prefix rhost ruser keyfile rpass) s
              (fun ssh => disciplined_session_prefix ssh _ _ _ _)) as [Hnb Hcalm].
  assert (Hpre : lifecycle_calls (events_of (session_prefix rhost ruser keyfile rpass s)) = []).
  { apply lifecycle_calls_peaceful. eapply Forall_impl; [exact Hcalm|apply calm_peaceful]. }
  destruct (outcome_of (session_prefix rhost ruser keyfile rpass s)) as [p|c| |] eqn:E.
  - cbv zeta. rewrite bind_native. cbv zeta.
    set (s1 := state_of (session_prefix rhost ruser keyfile rpass s)).
    set (ssh := (ssh_new (world s1)).1).
    set (s2 := {| world := (ssh_new (world s1)).2; heap := heap s1 |}).
    set (body := session_body fuel ssh p.1.1 p.1.2 p.2 (Rf_asInteger rport) rpass).
    run_simpl.
    destruct (disciplined_session_body fuel ssh p.1.1 p.1.2 p.2 (Rf_asInteger rport) rpass s2)
      as [[Hb (pre & Hev & Hpeace)]|[Hb Hpeace]].
    + fold body in Hb, Hev. right; right.
      exists ssh, (events_of (session_prefix rhost ruser keyfile rpass s)
                     ++ E_ssh_new ssh :: pre).
      split; [|split; [done|]].
      * rewrite lifecycle_calls_app, Hpre, Hev. simpl.
        change (E_ssh_new ssh :: pre ++ [E_ssh_disconnect ssh; E_ssh_free ssh])
          with ([E_ssh_new ssh] ++ pre ++ [E_ssh_disconnect ssh; E_ssh_free ssh]).
        rewrite !lifecycle_calls_app, (lifecycle_calls_peaceful pre Hpeace). done.
      * rewrite Hev. by rewrite <- app_assoc.
    + fold body in Hb, Hpeace. right; left. exists ssh. split; [|done].
      rewrite lifecycle_calls_app, Hpre. simpl.
      change (E_ssh_new ssh :: events_of (body s2))
        with ([E_ssh_new ssh] ++ events_of (body s2)).
      by rewrite lifecycle_calls_app, (lifecycle_calls_peaceful _ Hpeace).
  - left. split; [done|]. split; [|done]. intros Hc. apply Hnb.
    by apply (bailed_Raise (B:=(Z * chars * chars))) in Hc.
  - left. split; [done|]. split; [apply not_bailed_Undefined|done].
  - left. split; [done|]. split; [apply not_bailed_Diverge|done].
Qed.


(** X2: a session handle exists only after a successful attempt.  When
    [C_start_session] returns, its value is one fresh external pointer that
    holds the session [ssh_new] returned, with [ssh_ptr_fin] registered as
    finalizer and class "ssh_session", and every other external pointer is as
    before; when it does not return, no external pointer was added or
    changed. *)
Theorem handle_only_on_success fuel rhost rport ruser keyfile rpass s :
  let x := C_start_session fuel rhost rport ruser keyfile rpass s in
  match outcome_of x with
  | Ok ptr =>
      exists l ssh,
        ptr = EXTPTRSXP l /\ heap s !! l = None /\
        heap (state_of x) = <[l := session_handle_of ssh]> (heap s) /\
        In (E_ssh_new ssh) (events_of x)
  | _ => heap (state_of x) = heap s
  end.
Proof.
  intros x. subst x. rewrite C_start_session_run, bind_run.
  assert (Hf := frame_session_prefix rhost ruser keyfile rpass s).
  destruct (outcome_of (session_prefix rhost ruser keyfile rpass s)) as [p|c| |];
    try exact Hf.
  cbv zeta. rewrite bind_native. cbv zeta.
  set (s1 := state_of (session_prefix rhost ruser keyfile rpass s)) in *.
  set (ssh := (ssh_new (world s1)).1).
  set (s2 := {| world := (ssh_new (world s1)).2; heap := heap s1 |}).
  assert (Hc := creates_session_body fuel ssh p.1.1 p.1.2 p.2 (Rf_asInteger rport) rpass s2).
  set (body := session_body fuel ssh p.1.1 p.1.2 p.2 (Rf_asInteger rport) rpass) in *.
  run_simpl. change (heap s2) with (heap s1) in Hc. rewrite Hf in Hc.
  destruct (outcome_of (body s2)) as [ptr| | |]; try exact Hc.
  destruct Hc as (l & -> & Hfresh & Hheap). exists l, ssh.
  repeat split; try done. apply in_or_app. right. by left.
Qed.

Lemma none_of_failed_setup_traffic (evs : list event) :
  Forall traffic evs -> none_of failed_setup evs.
Proof.
  intros H. eapply Forall_impl; [exact H|]. intros e He. by apply traffic_calm in He as (_ & ? & _).
Qed.

Lemma disciplined_no_failed_setup {A} ssh (m : M W A) s :
  disciplined traffic ssh m -> none_of failed_setup (events_of (m s)).
Proof.
  intros H. destruct (H s) as [[_ (pre & -> & Hpre)]|[_ Hev]].
  - apply Forall_app. split; [by apply none_of_failed_setup_traffic|].
    repeat constructor; by intros [].
  - by apply none_of_failed_setup_traffic.
Qed.

Lemma stops_prepend {A} ssh (evs : list event) (x : outcome A * state W * list event) :
  none_of failed_setup evs -> stops_at_failed_setup ssh x ->
  stops_at_failed_setup ssh (outcome_of x, state_of x, evs ++ events_of x).
Proof.
  intros Hevs [[Hb (pre & e & Hev & Hpre & He)]|Hnone]; [left|right]; run_simpl.
  - split; [done|]. exists (evs ++ pre), e. rewrite Hev.
    split; [by rewrite app_assoc|]. split; [by apply Forall_app|done].
  - by apply Forall_app.
Qed.

Lemma stops_bind {A B} ssh (m : M W A) (k : A -> M W B) s :
  none_of failed_setup (events_of (m s)) ->
  (forall a, outcome_of (m s) = Ok a -> stops_at_failed_setup ssh (k a (state_of (m s)))) ->
  stops_at_failed_setup ssh (bind m k s).
Proof.
  intros Hm Hk. rewrite bind_run.
  destruct (outcome_of (m s)) as [a| | |]; try (by right).
  by apply stops_prepend, Hk.
Qed.

(** A setup call followed by its [bail_if]. *)
Lemma stops_checked_call {B} ssh (f : W -> Z * W) (ev : Z -> event) what (rest : M W B) s :
  (forall rc, failed_setup (ev rc) <-> rc <> SSH_OK) ->
  (forall s', stops_at_failed_setup ssh (rest s')) ->
  stops_at_failed_setup ssh ((rc <- native f ev ;; bail_if rc what ssh ;; rest) s).
Proof.
  intros Hev Hrest. rewrite bind_native. cbv zeta.
  set (rc := (f (world s)).1). set (s1 := {| world := (f (world s)).2; heap := heap s |}).
  rewrite bind_run. destruct (decide (rc = SSH_OK)) as [Hrc|Hrc].
  - rewrite Hrc, bail_if_ok. cbv zeta. run_simpl.
    apply (stops_prepend ssh [ev SSH_OK]); [|apply Hrest].
    constructor; [|constructor]. rewrite Hev. by intros ?.
  - rewrite bail_if_tears_down by done. run_simpl. left.
    split; [by eexists _, _|]. exists [], (ev rc).
    split; [done|]. split; [constructor|by apply Hev].
Qed.

Lemma stops_session_body fuel ssh privkey host user port rpass s :
  stops_at_failed_setup ssh (session_body fuel ssh privkey host user port rpass s).
Proof.
  unfold session_body.
  apply stops_checked_call; [done|intros s1].
  apply stops_checked_call; [done|intros s2].
  apply stops_checked_call; [done|intros s3].
  apply stops_bind; [|intros _ _].
  { unfold native. destruct (ssh_set_callbacks ssh _). repeat constructor. by intros []. }
  apply stops_checked_call; [done|intros s4].
  apply stops_bind; [apply (disciplined_no_failed_setup ssh), disciplined_server_identity
                    |intros _ _].
  apply stops_bind; [apply (disciplined_no_failed_setup ssh), disciplined_auth_any
                    |intros _ _].
  apply stops_bind; [|intros banner _].
  { unfold native. destruct (ssh_get_issue_banner ssh _). repeat constructor. by intros []. }
  apply stops_bind; [destruct banner; repeat constructor; by intros []|intros _ _].
  right. destruct (ssh_ptr_create_run ssh (state_of
    (match banner with Some b => Rprintf (c_str b ++ newline) | None => ret tt end
       (state_of (native (ssh_get_issue_banner ssh) (fun _ => E_ssh_get_issue_banner ssh)
          (state_of (auth_any fuel ssh privkey rpass
             (state_of (server_identity ssh s4))))))))) as [_ ->].
  constructor.
Qed.

Lemma split_unique (P : event -> Prop) (pre post before after : list event) (e' e : event) :
  none_of P pre -> none_of P post -> P e ->
  pre ++ e' :: post = before ++ e :: after ->
  before = pre /\ e = e' /\ after = post.
Proof.
  intros Hpre Hpost He. revert before.
  induction pre as [|p pre IH]; intros before Heq.
  - destruct before as [|b before]; simplify_eq/=; [done|].
    exfalso. by apply (none_of_middle P before after e).
  - destruct before as [|b before]; simplify_eq/=.
    + by inversion Hpre.
    + inversion Hpre; subst. by destruct (IH ltac:(done) before ltac:(done)) as (-> & -> & ->).
Qed.

(** X3: the first setup call libssh refuses ends the attempt.  If
    [ssh_options_set] (host, user or port) or [ssh_connect] returns a code
    other than [SSH_OK], the only calls after it are [ssh_disconnect] and
    [ssh_free] of the session this attempt created: no later option is set,
    no connection or authentication is tried, and the attempt raises the
    condition of [bail_if]. *)
Theorem refused_setup_ends_attempt fuel rhost rport ruser keyfile rpass s
    (before after : list event) (e : event) :
  events_of (C_start_session fuel rhost rport ruser keyfile rpass s) = before ++ e :: after ->
  failed_setup e ->
  exists ssh,
    after = [E_ssh_disconnect ssh; E_ssh_free ssh] /\
    In (E_ssh_new ssh) before /\
    bailed (outcome_of (C_start_session fuel rhost rport ruser keyfile rpass s)).
Proof.
  rewrite C_start_session_run, bind_run. intros Hev He.
  destruct (never_bails calm (session_prefix rhost ruser keyfile rpass) s
              (fun ssh => disciplined_session_prefix ssh _ _ _ _)) as [_ Hcalm].
  assert (Hpre : none_of failed_setup (events_of (session_prefix rhost ruser keyfile rpass s))).
  { eapply Forall_impl; [exact Hcalm|]. by intros ? (_ & ? & _). }
  destruct (outcome_of (session_prefix rhost ruser keyfile rpass s)) as [p|c| |];
    try (exfalso; revert Hev; run_simpl; intros Hev;
         apply (none_of_middle failed_setup before after e); [by rewrite <- Hev|done]).
  cbv zeta in *. rewrite bind_native in *. cbv zeta in *.
  set (s1 := state_of (session_prefix rhost ruser keyfile rpass s)) in *.
  set (ssh := (ssh_new (world s1)).1) in *.
  set (s2 := {| world := (ssh_new (world s1)).2; heap := heap s1 |}) in *.
  destruct (stops_session_body fuel ssh p.1.1 p.1.2 p.2 (Rf_asInteger rport) rpass s2)
    as [[Hb (pre & e' & Hbody & Hnone & He')]|Hnone];
    set (body := session_body fuel ssh p.1.1 p.1.2 p.2 (Rf_asInteger rport) rpass) in *;
    revert Hev; run_simpl; intros Hev.
  - rewrite Hbody in Hev.
    assert (Hall : none_of failed_setup
              (events_of (session_prefix rhost ruser keyfile rpass s) ++ E_ssh_new ssh :: pre)).
    { apply Forall_app. split; [done|]. constructor; [by intros []|done]. }
    change (E_ssh_new ssh :: pre ++ [e'; E_ssh_disconnect ssh; E_ssh_free ssh])
      with ((E_ssh_new ssh :: pre) ++ [e'; E_ssh_disconnect ssh; E_ssh_free ssh]) in Hev.
    rewrite app_assoc in Hev.
    assert (Hpost : none_of failed_setup [E_ssh_disconnect ssh; E_ssh_free ssh])
      by (repeat constructor; by intros []).
    destruct (split_unique failed_setup _ _ before after e' e Hall Hpost He Hev)
      as (-> & -> & ->).
    exists ssh. split; [done|]. split; [|done]. apply in_or_app. right. by left.
  - exfalso. apply (none_of_middle failed_setup before after e); [|done].
    rewrite <- Hev. apply Forall_app. split; [done|]. constructor; [by intros []|done].
Qed.

(** X4: a failure while reading the private key precedes the session.
    When [read_privkey] raises (the import failed, or the passphrase
    callback did), [C_start_session] raises the same condition after the same
    calls: [ssh_new] has not been called, there is nothing to tear down, and
    no external pointer changed. *)
Theorem key_failure_precedes_session fuel rhost rport ruser keyfile rpass s c :
  outcome_of (read_privkey keyfile rpass s) = Raise c ->
  C_start_session fuel rhost rport ruser keyfile rpass s =
    (Raise c, state_of (read_privkey keyfile rpass s),
     events_of (read_privkey keyfile rpass s)) /\
  lifecycle_calls (events_of (read_privkey keyfile rpass s)) = [] /\
  heap (state_of (read_privkey keyfile rpass s)) = heap s.
Proof.
  intros Hc. split; [|split].
  - unfold C_start_session. by rewrite bind_run, Hc.
  - apply lifecycle_calls_peaceful.
    destruct (never_bails calm (read_privkey keyfile rpass) s
                (fun ssh => disciplined_read_privkey ssh _ _)) as [_ Hcalm].
    eapply Forall_impl; [exact Hcalm|apply calm_peaceful].
  - apply frame_read_privkey.
Qed.

(** When does [read_privkey] raise "Failed to read private key"?  With a
    key file named and no passphrase asked for, exactly when
    [ssh_pki_import_privkey_file] returns a code other than [SSH_OK]. *)
Lemma read_privkey_import path (more : list chars) rpass s :
  ssh_pki_import_privkey_file_prompts path (world s) = [] ->
  let r := ssh_pki_import_privkey_file path [] (world s) in
  read_privkey (STRSXP (path :: more)) rpass s =
    (if r.1.1 =? SSH_OK then Ok r.1.2 else Raise (KeyFileFailed path),
     {| world := r.2; heap := heap s |},
     [E_ssh_pki_import_privkey_file path r.1.1]).
Proof.
  intros Hp r. unfold read_privkey. simpl.
  replace (Z.pos (Pos.of_succ_nat (length more)) =? 0) with false
    by (symmetry; by apply Z.eqb_neq).
  simpl. rewrite bind_ret, bind_peek, Hp. simpl. rewrite bind_ret, bind_native.
  cbv zeta. fold r. by destruct (r.1.1 =? SSH_OK).
Qed.

(** ** After the connection is established *)

(** Lines 139-158: what follows a successful [ssh_connect]. *)
Let session_tail (fuel : nat) (ssh privkey : Z) (rpass : SEXP W) : M W (SEXP W) :=
  server_identity ssh ;;
  auth_any fuel ssh privkey rpass ;;
  banner <- native (ssh_get_issue_banner ssh) (fun _ => E_ssh_get_issue_banner ssh) ;;
  match banner with
  | Some b => Rprintf (c_str b ++ newline)
  | None => ret tt
  end ;;
  ssh_ptr_create ssh.

(** The connection was not established, or what follows it is the host-key
    check and then authentication. *)
Let settles {A} (ssh : Z) (x : outcome A * state W * list event) : Prop :=
  none_of connected (events_of x) \/
  exists pre after,
    events_of x = pre ++ E_ssh_connect ssh SSH_OK :: after /\
    none_of connected pre /\ none_of connected after /\
    proceeds_to_authentication ssh after.

Lemma disciplined_none_of {A} (P : event -> Prop) ssh (m : M W A) s :
  (forall e, traffic e -> ~ P e) ->
  ~ P (E_ssh_disconnect ssh) -> ~ P (E_ssh_free ssh) ->
  disciplined traffic ssh m -> none_of P (events_of (m s)).
Proof.
  intros HP Hd Hf H. destruct (H s) as [[_ (pre & -> & Hpre)]|[_ Hev]].
  - apply Forall_app. split; [by eapply Forall_impl|by repeat constructor].
  - by eapply Forall_impl.
Qed.

Lemma traffic_not_connected e : traffic e -> ~ connected e.
Proof. intros [Hs _]. destruct e; simpl in *; try discriminate; tauto. Qed.

Lemma server_identity_run ssh s :
  exists krc key hrc known printed s',
    server_identity ssh s =
      (Ok tt, s',
       [E_ssh_get_publickey ssh krc; E_ssh_get_publickey_hash key hrc;
        E_ssh_is_server_known ssh known] ++ printed) /\
    (known <> 0 /\ printed = [] \/
     known = 0 /\ exists fingerprint,
       printed = [E_Rprintf (lit "Unknown server fingerprint: " ++ fingerprint ++ newline)]).
Proof.
  unfold server_identity. rewrite !bind_native. cbv zeta. simpl.
  set (k := ssh_get_publickey ssh (world s)).
  set (h := ssh_get_publickey_hash k.1.2 k.2).
  set (known := ssh_is_server_known ssh h.2).
  destruct (known.1 =? 0) eqn:E; unfold Rprintf, ret; run_simpl.
  - apply Z.eqb_eq in E.
    eexists k.1.1, k.1.2, h.1.1, known.1, _, _. split; [reflexivity|].
    right. split; [done|]. by eexists.
  - apply Z.eqb_neq in E.
    eexists k.1.1, k.1.2, h.1.1, known.1, [], _. split; [reflexivity|]. by left.
Qed.

Lemma auth_any_first_call fuel ssh privkey rpass s :
  exists rc0 rest, events_of (auth_any fuel ssh privkey rpass s) = E_ssh_userauth_none ssh rc0 :: rest.
Proof.
  rewrite auth_any_run. cbv zeta.
  destruct (_ =? SSH_AUTH_SUCCESS); run_simpl; by eexists _, _.
Qed.

Lemma bind_events_prefix {A B} (m : M W A) (k : A -> M W B) s :
  exists rest, events_of (bind m k s) = events_of (m s) ++ rest.
Proof.
  rewrite bind_run. destruct (outcome_of (m s)); run_simpl;
    first [by eexists | exists []; by rewrite app_nil_r].
Qed.

Lemma session_tail_proceeds fuel ssh privkey rpass s :
  proceeds_to_authentication ssh (events_of (session_tail fuel ssh privkey rpass s)).
Proof.
  unfold session_tail. rewrite bind_run.
  destruct (server_identity_run ssh s) as (krc & key & hrc & known & printed & s' & -> & Hp).
  run_simpl. cbv zeta.
  destruct (bind_events_prefix (auth_any fuel ssh privkey rpass)
              (fun _ => banner <- native (ssh_get_issue_banner ssh)
                                         (fun _ => E_ssh_get_issue_banner ssh) ;;
                        match banner with
                        | Some b => Rprintf (c_str b ++ newline)
                        | None => ret tt
                        end ;;
                        ssh_ptr_create ssh) s') as (rest & ->).
  destruct (auth_any_first_call fuel ssh privkey rpass s') as (rc0 & rest' & ->).
  exists krc, key, hrc, known, printed, rc0, (rest' ++ rest).
  split; [|done]. by rewrite <- !app_assoc.
Qed.

Lemma disciplined_session_tail fuel ssh privkey rpass :
  disciplined traffic ssh (session_tail fuel ssh privkey rpass).
Proof.
  unfold session_tail.
  discipline_with
    ltac:(first [ apply disciplined_ssh_ptr_create | apply disciplined_server_identity
                | apply disciplined_auth_any ]).
Qed.

Lemma settles_prepend {A} ssh (evs : list event) (x : outcome A * state W * list event) :
  none_of connected evs -> settles ssh x ->
  settles ssh (outcome_of x, state_of x, evs ++ events_of x).
Proof.
  intros Hevs [Hnone|(pre & after & Hev & Hpre & Hafter & Hp)]; [left|right]; run_simpl.
  - by apply Forall_app.
  - exists (evs ++ pre), after. rewrite Hev.
    split; [by rewrite app_assoc|]. split; [by apply Forall_app|done].
Qed.

Lemma settles_option {B} ssh opt what (rest : M W B) s :
  (forall s', settles ssh (rest s')) ->
  settles ssh ((rc <- native (ssh_options_set ssh opt) (E_ssh_options_set ssh opt) ;;
                bail_if rc what ssh ;; rest) s).
Proof.
  intros Hrest. rewrite bind_native. cbv zeta.
  set (rc := (ssh_options_set ssh opt (world s)).1).
  set (s1 := {| world := (ssh_options_set ssh opt (world s)).2; heap := heap s |}).
  rewrite bind_run. destruct (decide (rc = SSH_OK)) as [Hrc|Hrc].
  - rewrite Hrc, bail_if_ok. cbv zeta. run_simpl.
    apply (settles_prepend ssh [E_ssh_options_set ssh opt SSH_OK]); [|apply Hrest].
    repeat constructor. by intros [].
  - rewrite bail_if_tears_down by done. run_simpl. left.
    repeat constructor; by intros [].
Qed.

Lemma settles_session_body fuel ssh privkey host user port rpass s :
  settles ssh (session_body fuel ssh privkey host user port rpass s).
Proof.
  unfold session_body.
  apply settles_option; intros s1.
  apply settles_option; intros s2.
  apply settles_option; intros s3.
  rewrite bind_native. cbv zeta.
  apply (settles_prepend ssh [E_ssh_set_callbacks ssh]); [repeat constructor; by intros []|].
  set (s4 := {| world := (ssh_set_callbacks ssh (world s3)).2; heap := heap s3 |}).
  rewrite bind_native. cbv zeta.
  set (rc := (ssh_connect ssh (world s4)).1).
  set (s5 := {| world := (ssh_connect ssh (world s4)).2; heap := heap s4 |}).
  rewrite bind_run. destruct (decide (rc = SSH_OK)) as [Hrc|Hrc].
  - rewrite Hrc, bail_if_ok. cbv zeta. run_simpl. right.
    exists [], (events_of (session_tail fuel ssh privkey rpass s5)).
    split; [done|]. split; [constructor|]. split.
    + apply (disciplined_none_of connected ssh);
        [apply traffic_not_connected|by intros []|by intros []
        |apply disciplined_session_tail].
    + apply session_tail_proceeds.
  - rewrite bail_if_tears_down by done. run_simpl. left.
    constructor; [exact Hrc|]. repeat constructor; by intros [].
Qed.

(** X5: the host-key check never stops an attempt.  Once [ssh_connect] has
    returned [SSH_OK], the attempt makes the three host-key calls, prints the
    "Unknown server fingerprint" line exactly when [ssh_is_server_known]
    answers 0, and then starts authenticating with "none", on the session
    [ssh_new] returned: no reply of the host-key calls, and no unknown
    server, keeps [C_start_session] from offering credentials. *)
Theorem host_key_never_stops_attempt fuel rhost rport ruser keyfile rpass s
    (before after : list event) (e : event) :
  events_of (C_start_session fuel rhost rport ruser keyfile rpass s) = before ++ e :: after ->
  connected e ->
  exists ssh,
    e = E_ssh_connect ssh SSH_OK /\ In (E_ssh_new ssh) before /\
    proceeds_to_authentication ssh after.
Proof.
  rewrite C_start_session_run, bind_run. intros Hev He.
  destruct (never_bails calm (session_prefix rhost ruser keyfile rpass) s
              (fun ssh => disciplined_session_prefix ssh _ _ _ _)) as [_ Hcalm].
  assert (Hpre : none_of connected (events_of (session_prefix rhost ruser keyfile rpass s))).
  { eapply Forall_impl; [exact Hcalm|apply calm_not_connected]. }
  destruct (outcome_of (session_prefix rhost ruser keyfile rpass s)) as [p|c| |];
    try (exfalso; revert Hev; run_simpl; intros Hev;
         apply (none_of_middle connected before after e); [by rewrite <- Hev|done]).
  cbv zeta in *. rewrite bind_native in *. cbv zeta in *.
  set (s1 := state_of (session_prefix rhost ruser keyfile rpass s)) in *.
  set (ssh := (ssh_new (world s1)).1) in *.
  set (s2 := {| world := (ssh_new (world s1)).2; heap := heap s1 |}) in *.
  destruct (settles_session_body fuel ssh p.1.1 p.1.2 p.2 (Rf_asInteger rport) rpass s2)
    as [Hnone|(pre & tail & Hbody & Hnone & Htail & Hp)];
    set (body := session_body fuel ssh p.1.1 p.1.2 p.2 (Rf_asInteger rport) rpass) in *;
    revert Hev; run_simpl; intros Hev.
  - exfalso. apply (none_of_middle connected before after e); [|done].
    rewrite <- Hev. apply Forall_app. split; [done|]. constructor; [by intros []|done].
  - rewrite Hbody in Hev.
    assert (Hall : none_of connected
              (events_of (session_prefix rhost ruser keyfile rpass s) ++ E_ssh_new ssh :: pre)).
    { apply Forall_app. split; [done|]. constructor; [by intros []|done]. }
    change (E_ssh_new ssh :: pre ++ E_ssh_connect ssh SSH_OK :: tail)
      with ((E_ssh_new ssh :: pre) ++ E_ssh_connect ssh SSH_OK :: tail) in Hev.
    rewrite app_assoc in Hev.
    destruct (split_unique connected _ tail before after (E_ssh_connect ssh SSH_OK) e
                Hall Htail He Hev) as (-> & -> & ->).
    exists ssh. split; [done|]. split; [|done]. apply in_or_app. right. by left.
Qed.


(** ** From connection to disconnection *)

(** What a returned attempt leaves: one fresh handle for the session
    [ssh_new] returned, and no release of that session. *)
Lemma C_start_session_ok fuel rhost rport ruser keyfile rpass s ptr :
  let x := C_start_session fuel rhost rport ruser keyfile rpass s in
  outcome_of x = Ok ptr ->
  exists l ssh,
    ptr = EXTPTRSXP l /\ heap s !! l = None /\
    heap (state_of x) = <[l := session_handle_of ssh]> (heap s) /\
    lifecycle_calls (events_of x) = [E_ssh_new ssh].
Proof.
  intros x. subst x. rewrite C_start_session_run, bind_run.
  assert (Hf := frame_session_prefix rhost ruser keyfile rpass s).
  destruct (never_bails calm (session_prefix rhost ruser keyfile rpass) s
              (fun ssh => disciplined_session_prefix ssh _ _ _ _)) as [_ Hcalm].
  assert (Hpre : lifecycle_calls (events_of (session_prefix rhost ruser keyfile rpass s)) = []).
  { apply lifecycle_calls_peaceful. eapply Forall_impl; [exact Hcalm|apply calm_peaceful]. }
  destruct (outcome_of (session_prefix rhost ruser keyfile rpass s)) as [p|c| |];
    try (run_simpl; discriminate).
  cbv zeta. rewrite bind_native. cbv zeta.
  set (s1 := state_of (session_prefix rhost ruser keyfile rpass s)) in *.
  set (ssh := (ssh_new (world s1)).1).
  set (s2 := {| world := (ssh_new (world s1)).2; heap := heap s1 |}).
  assert (Hc := creates_session_body fuel ssh p.1.1 p.1.2 p.2 (Rf_asInteger rport) rpass s2).
  assert (Hd := disciplined_session_body fuel ssh p.1.1 p.1.2 p.2 (Rf_asInteger rport) rpass s2).
  set (body := session_body fuel ssh p.1.1 p.1.2 p.2 (Rf_asInteger rport) rpass) in *.
  run_simpl. change (heap s2) with (heap s1) in Hc. rewrite Hf in Hc.
  intros Hok. rewrite Hok in Hc. destruct Hc as (l & -> & Hfresh & Hheap).
  exists l, ssh. repeat split; try done.
  destruct Hd as [[(what & buf & Hb) _]|[_ Hpeace]]; [congruence|].
  rewrite lifecycle_calls_app, Hpre. simpl.
  change (E_ssh_new ssh :: events_of (body s2))
    with ([E_ssh_new ssh] ++ events_of (body s2)).
  by rewrite lifecycle_calls_app, (lifecycle_calls_peaceful _ Hpeace).
Qed.

(** X6: from connection to disconnection.  A session that [C_start_session]
    returned and that is then closed with [C_disconnect_session] has been
    created, disconnected and freed exactly once each, in this order;
    closing returns normally, leaves the handle in place with its pointer
    cleared (finalizer and class kept), and [ssh_ptr_get] on it raises "SSH
    session pointer is dead" from then on.  Should [ssh_new] have returned
    [NULL], the handle is dead from the start and closing it calls
    nothing. *)
Theorem started_then_disconnected fuel rhost rport ruser keyfile rpass s ptr :
  let x := C_start_session fuel rhost rport ruser keyfile rpass s in
  outcome_of x = Ok ptr ->
  let y := C_disconnect_session ptr (state_of x) in
  exists l ssh,
    ptr = EXTPTRSXP l /\
    outcome_of y = Ok R_NilValue /\
    lifecycle_calls (events_of x ++ events_of y) =
      (if ssh =? NULL then [E_ssh_new ssh]
       else [E_ssh_new ssh; E_ssh_disconnect ssh; E_ssh_free ssh]) /\
    heap (state_of y) = <[l := clear (session_handle_of ssh)]> (heap s) /\
    ssh_ptr_get ptr (state_of y) = (Raise SessionDead, state_of y, []).
Proof.
  intros x Hok y.
  destruct (C_start_session_ok fuel rhost rport ruser keyfile rpass s ptr Hok)
    as (l & ssh & -> & Hfresh & Hheap & Hlife).
  fold x in Hheap, Hlife. exists l, ssh. split; [done|].
  assert (Hl : heap (state_of x) !! l = Some (session_handle_of ssh)).
  { by rewrite Hheap, lookup_insert_eq. }
  assert (Hget : forall s', heap s' !! l = Some (clear (session_handle_of ssh)) ->
            ssh_ptr_get (EXTPTRSXP l) s' = (Raise SessionDead, s', [])).
  { intros s' Hs'. unfold ssh_ptr_get, bind, R_ExternalPtrAddr. by rewrite Hs'. }
  subst y. unfold C_disconnect_session. rewrite bind_run.
  destruct (ssh =? NULL) eqn:E.
  - apply Z.eqb_eq in E.
    rewrite (ssh_ptr_fin_dead (state_of x) l _ Hl) by done. run_simpl. cbv zeta. unfold ret. run_simpl.
    rewrite app_nil_r. repeat split; try done.
    + rewrite Hheap. by rewrite E.
    + apply Hget. rewrite Hl. by rewrite E.
  - apply Z.eqb_neq in E.
    rewrite (ssh_ptr_fin_live (state_of x) l _ Hl) by done. run_simpl. cbv zeta. unfold ret. run_simpl.
    repeat split.
    + by rewrite lifecycle_calls_app, Hlife.
    + by rewrite Hheap, alter_insert_eq.
    + apply Hget. simpl. by rewrite lookup_alter_eq, Hl.
Qed.

End Attempt.

(** ** Session handles *)

Section HandleLife.
Context {W : Type} {lib : LibSSH W}.
Implicit Types (s : state W).

Lemma ssh_ptr_get_run l s :
  ssh_ptr_get (EXTPTRSXP l) s =
    (match heap s !! l with
     | Some p => if addr p =? NULL then Raise SessionDead else Ok (addr p)
     | None => Undefined
     end, s, []).
Proof.
  unfold ssh_ptr_get, bind, R_ExternalPtrAddr.
  destruct (heap s !! l) as [p|]; [|done]. by destruct (addr p =? NULL).
Qed.

(** X7: a handle gives back the session it was made for.  [ssh_ptr_get] on
    the value of [ssh_ptr_create ssh] returns [ssh], without calling libssh
    and without changing the state [ssh_ptr_create] left; when [ssh] is
    [NULL] the new handle is dead from the start and [ssh_ptr_get] raises
    "SSH session pointer is dead".  Creating a handle keeps every existing
    external pointer as it was. *)
Theorem created_handle_yields_session ssh s :
  (ptr <- ssh_ptr_create ssh ;; ssh_ptr_get ptr) s =
    (if ssh =? NULL then Raise SessionDead else Ok ssh,
     state_of (ssh_ptr_create ssh s), []) /\
  heap s ⊆ heap (state_of (ssh_ptr_create ssh s)) /\
  world (state_of (ssh_ptr_create ssh s)) = world s.
Proof.
  destruct (ssh_ptr_create_run ssh s) as [Hfresh Hrun]. cbv zeta in Hrun.
  rewrite bind_run, Hrun. run_simpl. cbv beta iota zeta. rewrite ssh_ptr_get_run. run_simpl.
  split; [|split; [|done]].
  - simpl. by rewrite lookup_insert_eq.
  - simpl. by apply insert_subseteq.
Qed.

(** X8: closing one session leaves every other handle alone.  Whatever the
    handle [l] is (live, dead, or not a handle at all),
    [C_disconnect_session] on it changes no other external pointer, adds and
    removes none, and [ssh_ptr_get] on another handle answers afterwards
    what it answered before. *)
Theorem disconnect_leaves_other_handles s (l l' : loc) :
  l <> l' ->
  let y := C_disconnect_session (EXTPTRSXP l) s in
  heap (state_of y) !! l' = heap s !! l' /\
  dom (heap (state_of y)) = dom (heap s) /\
  outcome_of (ssh_ptr_get (EXTPTRSXP l') (state_of y)) =
    outcome_of (ssh_ptr_get (EXTPTRSXP l') s).
Proof.
  intros Hne y.
  assert (Hheap : heap (state_of y) = heap s \/ heap (state_of y) = alter clear l (heap s)).
  { subst y. unfold C_disconnect_session. rewrite bind_run.
    destruct (heap s !! l) as [p|] eqn:Hl.
    - destruct (decide (addr p = NULL)) as [Hp|Hp].
      + rewrite (ssh_ptr_fin_dead s l p Hl Hp). by left.
      + rewrite (ssh_ptr_fin_live s l p Hl Hp). by right.
    - left. unfold ssh_ptr_fin, bind, R_ExternalPtrAddr. by rewrite Hl. }
  assert (Hl' : heap (state_of y) !! l' = heap s !! l').
  { destruct Hheap as [->| ->]; [done|]. by rewrite lookup_alter_ne. }
  split; [done|]. split.
  - destruct Hheap as [->| ->]; [done|]. apply dom_alter_L.
  - rewrite !ssh_ptr_get_run. run_simpl. by rewrite Hl'.
Qed.

End HandleLife.

(** ** The keyboard-interactive exchange *)

Section Exchange.
Context {W : Type} {lib : LibSSH W}.
Implicit Types (s : state W) (rpass : SEXP W).

Lemma password_cb_answering rpass prompt s :
  Forall answering (events_of (password_cb rpass prompt s)).
Proof.
  destruct rpass as [|?|[|x v]|f|?];
    [constructor|constructor|constructor| | |constructor].
  - rewrite password_cb_literal. constructor.
  - rewrite password_cb_closure. cbv zeta.
    destruct (f (make_string prompt) (world s)).1 as [[|?|[|??]|?|?]|];
      simpl; by repeat constructor.
Qed.

Lemma password_cb_answers_nothing rpass prompt s :
  answer_slots (events_of (password_cb rpass prompt s)) = [].
Proof.
  destruct rpass as [|?|[|x v]|f|?]; [done|done|done| | |done].
  - by rewrite password_cb_literal.
  - rewrite password_cb_closure. cbv zeta.
    by destruct (f (make_string prompt) (world s)).1 as [[|?|[|??]|?|?]|].
Qed.

Lemma answer_slots_app (evs1 evs2 : list event) :
  answer_slots (evs1 ++ evs2) = answer_slots evs1 ++ answer_slots evs2.
Proof. apply omap_app. Qed.

Lemma slots_from_S (i : Z) (k : nat) : slots_from i (S k) = i :: slots_from (i + 1) k.
Proof.
  unfold slots_from. simpl. rewrite Z.add_0_r. f_equal.
  rewrite <- fmap_S_seq, <- list_fmap_compose. apply list_fmap_ext.
  intros _ j _. simpl. lia.
Qed.

(** X9: the answers of a keyboard-interactive round go to consecutive
    slots.  The [for] loop answers the slots [iprompt], [iprompt + 1], ...
    in this order, each one once and none skipped; when it runs to its end
    all [n] slots were answered and none of the answers was rejected; when
    it leaves through [return SSH_AUTH_ERROR] the slot answered last is the
    rejected one.  The loop calls nothing but the credential callback and
    [ssh_userauth_kbdint_setanswer]. *)
Theorem answers_in_prompt_order ssh rpass (n : nat) (iprompt : Z) s :
  let x := kbdint_answers ssh rpass n iprompt s in
  Forall answering (events_of x) /\
  exists k : nat,
    (k <= n)%nat /\
    answer_slots (events_of x) = slots_from iprompt k /\
    (outcome_of x = Ok false -> k = n /\ accepted_only (events_of x)) /\
    (outcome_of x = Ok true ->
       exists pre buf rc,
         events_of x =
           pre ++ [E_ssh_userauth_kbdint_setanswer ssh (iprompt + Z.of_nat k - 1) buf rc] /\
         rc < 0 /\ accepted_only pre).
Proof.
  revert iprompt s. induction n as [|n IH]; intros iprompt s x; subst x.
  { split; [constructor|]. exists 0%nat. repeat split; try done. constructor. }
  cbn [kbdint_answers]. rewrite bind_peek, bind_run.
  set (prompt := ssh_userauth_kbdint_getprompt ssh iprompt (world s)).
  assert (Hans := password_cb_answering rpass prompt s).
  assert (Hnone := password_cb_answers_nothing rpass prompt s).
  assert (Hacc := password_cb_accepted_only rpass prompt s).
  destruct (outcome_of (password_cb rpass prompt s)) as [r| | |];
    try (run_simpl; split; [done|]; exists 0%nat; repeat split; (lia || done)).
  cbv zeta. rewrite bind_read_as_string.
  destruct (terminated r.1);
    [|run_simpl; rewrite app_nil_r; split; [done|]; exists 0%nat;
      repeat split; (lia || done)].
  rewrite bind_native. cbv zeta.
  set (s1 := state_of (password_cb rpass prompt s)) in *.
  set (reply := ssh_userauth_kbdint_setanswer ssh iprompt r.1 (world s1)).
  destruct (reply.1 <? 0) eqn:Hrc.
  - apply Z.ltb_lt in Hrc. unfold ret. run_simpl. split.
    + apply Forall_app. split; [done|]. by repeat constructor.
    + exists 1%nat. split; [lia|]. split.
      * by rewrite answer_slots_app, Hnone, slots_from_S.
      * split; [done|]. intros _. eexists _, _, _. split; [|done].
        by replace (iprompt + Z.of_nat 1 - 1) with iprompt by lia.
  - apply Z.ltb_ge in Hrc.
    destruct (IH (iprompt + 1) {| world := reply.2; heap := heap s1 |})
      as (Hrest & k & Hk & Hslots & Hfalse & Htrue).
    cbv zeta in *. run_simpl.
    set (rest := kbdint_answers ssh rpass n (iprompt + 1)
                   {| world := reply.2; heap := heap s1 |}) in *.
    assert (Hthis : accepted_only (events_of (password_cb rpass prompt s) ++
                      [E_ssh_userauth_kbdint_setanswer ssh iprompt r.1 reply.1])).
    { apply Forall_app. split; [done|]. constructor; [|constructor]. simpl. lia. }
    split.
    + apply Forall_app. split; [done|]. by constructor.
    + exists (S k). split; [lia|]. split.
      * rewrite answer_slots_app, Hnone. simpl. fold answer_slots.
        change (omap _ (events_of rest)) with (answer_slots (events_of rest)).
        by rewrite Hslots, slots_from_S.
      * split.
        -- intros Hok. destruct (Hfalse Hok) as [-> Hacc']. split; [done|].
           rewrite app_cons_assoc. by apply Forall_app.
        -- intros Hok. destruct (Htrue Hok) as (pre & buf & rc & Hev & Hneg & Hpre).
           exists ((events_of (password_cb rpass prompt s) ++
                      [E_ssh_userauth_kbdint_setanswer ssh iprompt r.1 reply.1]) ++ pre),
                  buf, rc.
           split; [|split; [done|by apply Forall_app]].
           rewrite Hev, <- !app_assoc. simpl.
           by replace (iprompt + Z.of_nat (S k) - 1) with (iprompt + 1 + Z.of_nat k - 1) by lia.
Qed.

Lemma goes_on_answering (evs : list event) : Forall answering evs -> Forall goes_on evs.
Proof. intros H. eapply Forall_impl; [exact H|]. intros e He. by destruct e. Qed.

Lemma header_line_goes_on (b : bool) (text : chars) s :
  Forall goes_on (events_of ((if b then Rprintf text else ret tt) s)).
Proof. destruct b; by repeat constructor. Qed.

Lemma kbdint_answers_goes_on ssh rpass n iprompt s :
  Forall goes_on (events_of (kbdint_answers ssh rpass n iprompt s)).
Proof.
  revert iprompt s. induction n as [|n IH]; intros iprompt s; [constructor|].
  cbn [kbdint_answers]. rewrite bind_peek, bind_run.
  set (prompt := ssh_userauth_kbdint_getprompt ssh iprompt (world s)).
  assert (Hans := goes_on_answering _ (password_cb_answering rpass prompt s)).
  destruct (outcome_of (password_cb rpass prompt s)) as [r| | |]; run_simpl; try done.
  cbv zeta. rewrite bind_read_as_string.
  destruct (terminated r.1); [|run_simpl; by rewrite app_nil_r].
  rewrite bind_native. cbv zeta. run_simpl.
  apply Forall_app. split; [done|]. constructor; [done|].
  destruct (_ <? 0); [constructor|apply IH].
Qed.

(** The result of the [while] loop entered with [rc0]. *)
Lemma kbdint_rounds_result fuel ssh rpass rc0 s rc :
  let x := kbdint_rounds fuel ssh rpass rc0 s in
  outcome_of x = Ok rc ->
  rc <> SSH_AUTH_INFO /\ Forall goes_on (removelast (events_of x)) /\
  ((rc = rc0 /\ events_of x = []) \/
   (exists pre, events_of x = pre ++ [E_ssh_userauth_kbdint ssh rc]) \/
   (rc = SSH_AUTH_ERROR /\ ends_rejected (events_of x))).
Proof.
  revert rc0 s. induction fuel as [|fuel IH]; intros rc0 s x; subst x.
  { simpl. destruct (rc0 =? SSH_AUTH_INFO) eqn:E; [done|].
    intros [= <-]. apply Z.eqb_neq in E. split; [done|]. split; [constructor|by left]. }
  cbn [kbdint_rounds]. destruct (rc0 =? SSH_AUTH_INFO) eqn:E.
  2:{ intros [= <-]. apply Z.eqb_neq in E. split; [done|]. split; [constructor|by left]. }
  rewrite !bind_peek.
  set (name := ssh_userauth_kbdint_getname ssh (world s)).
  set (instruction := ssh_userauth_kbdint_getinstruction ssh (world s)).
  set (nprompts := ssh_userauth_kbdint_getnprompts ssh (world s)).
  set (line1 := if 0 <? strlen name then Rprintf (c_str name ++ newline) else ret tt).
  set (line2 := if 0 <? strlen instruction then Rprintf (c_str instruction ++ newline)
                else ret tt).
  assert (H1 : outcome_of (line1 s) = Ok tt /\ Forall goes_on (events_of (line1 s))
               /\ accepted_only (events_of (line1 s))).
  { subst line1. destruct (0 <? strlen name); repeat split; repeat constructor; by intros []. }
  destruct H1 as (Ho1 & Hg1 & Ha1).
  rewrite bind_run, Ho1. cbv zeta.
  set (s1 := state_of (line1 s)).
  assert (H2 : outcome_of (line2 s1) = Ok tt /\ Forall goes_on (events_of (line2 s1))
               /\ accepted_only (events_of (line2 s1))).
  { subst line2. destruct (0 <? strlen instruction); repeat split; repeat constructor;
      by intros []. }
  destruct H2 as (Ho2 & Hg2 & Ha2).
  rewrite bind_run, Ho2. cbv zeta.
  set (s2 := state_of (line2 s1)).
  rewrite bind_run.
  assert (Hg3 := kbdint_answers_goes_on ssh rpass (Z.to_nat nprompts) 0 s2).
  assert (Hshape := kbdint_answers_shape ssh rpass (Z.to_nat nprompts) 0 s2).
  cbv zeta in Hshape.
  set (answers := kbdint_answers ssh rpass (Z.to_nat nprompts) 0 s2) in *.
  destruct (outcome_of answers) as [[|]| | |] eqn:Ho3; run_simpl; try done.
  - (* left through [return SSH_AUTH_ERROR] *)
    unfold ret. run_simpl. rewrite app_nil_r. intros [= <-].
    destruct Hshape as [[_ Hrej]|[Hno _]]; [|done].
    split; [done|]. split.
    + destruct Hrej as (pre & e & Hev & _ & _). rewrite Hev in *.
      apply Forall_app in Hg3 as [Hg3 _].
      rewrite !app_assoc, removelast_last.
      by repeat (apply Forall_app; split).
    + right; right. split; [done|].
      apply ends_rejected_prepend; [done|]. by apply ends_rejected_prepend.
  - (* the next challenge request *)
    cbv zeta. rewrite bind_native. cbv zeta.
    set (next := ssh_userauth_kbdint ssh (world (state_of answers))).
    set (s3 := {| world := next.2; heap := heap (state_of answers) |}).
    specialize (IH next.1 s3). cbv zeta in IH.
    set (rest := kbdint_rounds fuel ssh rpass next.1 s3) in *.
    run_simpl. intros Hok. destruct (IH Hok) as (Hinfo & Hgo & Hcase).
    split; [done|].
    assert (Hacc3 : accepted_only (events_of answers)).
    { destruct Hshape as [[? _]|[_ ?]]; [done|done]. }
    destruct Hcase as [[-> Hnil]|[(pre & Hev)|[-> Hrej]]].
    + rewrite Hnil. split.
      * rewrite !app_assoc, removelast_last. by repeat (apply Forall_app; split).
      * right; left. eexists. by rewrite !app_assoc.
    + rewrite Hev in *. rewrite removelast_last in Hgo.
      assert (Hnext : next.1 = SSH_AUTH_INFO).
      { destruct fuel as [|fuel']; subst rest; simpl in Hok, Hev.
        - destruct (next.1 =? SSH_AUTH_INFO) eqn:En; [by apply Z.eqb_eq|].
          simpl in Hev. by destruct pre.
        - destruct (next.1 =? SSH_AUTH_INFO) eqn:En; [by apply Z.eqb_eq|].
          simpl in Hev. by destruct pre. }
      split.
      * rewrite (app_cons_assoc (events_of answers)), !app_assoc, removelast_last.
        repeat (apply Forall_app; split); try done. by repeat constructor.
      * right; left. exists (events_of (line1 s) ++ events_of (line2 s1) ++ events_of answers
                               ++ E_ssh_userauth_kbdint ssh next.1 :: pre).
        by rewrite <- !app_assoc.
    + assert (Hnext : next.1 = SSH_AUTH_INFO).
      { destruct Hrej as (pre & e & Hev & _).
        destruct fuel as [|fuel']; subst rest; simpl in Hok, Hev;
          (destruct (next.1 =? SSH_AUTH_INFO) eqn:En; [by apply Z.eqb_eq|]);
          simpl in Hev; by destruct pre. }
      split.
      * destruct Hrej as (pre & e & Hev & Hpre & He). rewrite Hev in *.
        rewrite removelast_last in Hgo.
        rewrite (app_cons_assoc (events_of answers)), !app_assoc, removelast_last.
        repeat (apply Forall_app; split); try done. by repeat constructor.
      * right; right. split; [done|].
        apply ends_rejected_prepend; [done|]. apply ends_rejected_prepend; [done|].
        apply ends_rejected_prepend; [done|].
        change (E_ssh_userauth_kbdint ssh next.1 :: events_of rest)
          with ([E_ssh_userauth_kbdint ssh next.1] ++ events_of rest).
        apply ends_rejected_prepend; [|done]. repeat constructor. by intros [].
Qed.

(** X10: what the result of [auth_interactive] means.  The exchange goes on
    exactly as long as the server answers [SSH_AUTH_INFO]: when
    [auth_interactive] returns, its result is never [SSH_AUTH_INFO], every
    challenge request before the last call was answered "info", and the
    result is either the reply to the last challenge request, which is then
    the last call, or [SSH_AUTH_ERROR] produced by the code itself right
    after a rejected answer, which is then the last call. *)
Theorem interactive_result fuel ssh rpass s rc :
  let x := auth_interactive fuel ssh rpass s in
  outcome_of x = Ok rc ->
  rc <> SSH_AUTH_INFO /\
  Forall goes_on (removelast (events_of x)) /\
  ((exists pre, events_of x = pre ++ [E_ssh_userauth_kbdint ssh rc]) \/
   (rc = SSH_AUTH_ERROR /\ ends_rejected (events_of x))).
Proof.
  intros x. subst x. unfold auth_interactive. rewrite bind_native. cbv zeta.
  set (first := ssh_userauth_kbdint ssh (world s)).
  set (s1 := {| world := first.2; heap := heap s |}).
  assert (Hres := kbdint_rounds_result fuel ssh rpass first.1 s1 rc). cbv zeta in Hres.
  set (rounds := kbdint_rounds fuel ssh rpass first.1 s1) in *.
  run_simpl. intros Hok. destruct (Hres Hok) as (Hinfo & Hgo & Hcase).
  split; [done|].
  destruct Hcase as [[-> Hnil]|[(pre & Hev)|[-> Hrej]]].
  - rewrite Hnil. split; [constructor|]. left. by exists [].
  - assert (Hfirst : first.1 = SSH_AUTH_INFO).
    { destruct fuel; subst rounds; simpl in Hok, Hev;
        (destruct (first.1 =? SSH_AUTH_INFO) eqn:En; [by apply Z.eqb_eq|]);
        simpl in Hev; by destruct pre. }
    rewrite Hev in *. rewrite removelast_last in Hgo. split.
    + rewrite app_comm_cons, removelast_last. by constructor.
    + left. exists (E_ssh_userauth_kbdint ssh first.1 :: pre). done.
  - assert (Hfirst : first.1 = SSH_AUTH_INFO).
    { destruct Hrej as (pre & e & Hev & _).
      destruct fuel; subst rounds; simpl in Hok, Hev;
        (destruct (first.1 =? SSH_AUTH_INFO) eqn:En; [by apply Z.eqb_eq|]);
        simpl in Hev; by destruct pre. }
    split.
    + destruct Hrej as (pre & e & Hev & _). rewrite Hev in *.
      rewrite removelast_last in Hgo.
      rewrite app_comm_cons, removelast_last. by constructor.
    + right. split; [done|].
      change (E_ssh_userauth_kbdint ssh first.1 :: events_of rounds)
        with ([E_ssh_userauth_kbdint ssh first.1] ++ events_of rounds).
      apply ends_rejected_prepend; [|done]. repeat constructor. by intros [].
Qed.

End Exchange.

(** ** Password authentication *)

Section Password.
Context {W : Type} {lib : LibSSH W}.
Implicit Types (s : state W) (rpass : SEXP W).






End Password.

(** ** The 1024-byte buffer *)

Lemma c_str_NUL_free (s : chars) : NUL ∉ c_str s.
Proof.
  induction s as [|c s IH]; simpl; [by intros ?%elem_of_nil|].
  destruct (Ascii.eqb c NUL) eqn:E; [by intros ?%elem_of_nil|].
  intros [Heq|?]%elem_of_cons; [|done]. subst c. by rewrite Ascii.eqb_refl in E.
Qed.

Lemma terminated_NUL_free (s : chars) : NUL ∉ s -> terminated s = false.
Proof.
  unfold terminated. induction s as [|c s IH]; [done|]. intros H. simpl.
  destruct (Ascii.eqb c NUL) eqn:E.
  - apply Ascii.eqb_eq in E. subst. exfalso. apply H. by left.
  - apply IH. intros ?. apply H. by right.
Qed.

Lemma terminated_strncpy (src : chars) (n : nat) :
  terminated (strncpy src n) = true <-> (length (c_str src) < n)%nat.
Proof.
  unfold strncpy, terminated. rewrite existsb_app.
  assert (Htake : existsb (fun c => Ascii.eqb c NUL) (take n (c_str src)) = false).
  { apply terminated_NUL_free. intros H. apply (c_str_NUL_free src).
    by apply (subseteq_take n (c_str src)). }
  rewrite Htake. simpl.
  destruct (n - length (c_str src))%nat as [|k] eqn:E; simpl; split; (done || lia).
Qed.

Lemma c_str_strncpy (src : chars) (n : nat) :
  (length (c_str src) < n)%nat -> c_str (strncpy src n) = c_str src.
Proof.
  intros H. unfold strncpy. rewrite take_ge by lia.
  destruct (n - length (c_str src))%nat as [|k] eqn:E; [lia|]. simpl.
  apply c_str_app_NUL, c_str_NUL_free.
Qed.

Section Buffer.
Context {W : Type}.
Implicit Types (s : state W) (rpass : SEXP W).

Lemma strncpy_edge (secret : chars) :
  (terminated (strncpy secret 1024) = true <-> (length (c_str secret) < 1024)%nat) /\
  (terminated (strncpy secret 1024) = true -> c_str (strncpy secret 1024) = c_str secret) /\
  (terminated (strncpy secret 1024) = false -> strncpy secret 1024 = take 1024 (c_str secret)).
Proof.
  split; [apply terminated_strncpy|]. split.
  - intros H. by apply c_str_strncpy, terminated_strncpy.
  - intros H. apply strncpy_full.
    destruct (decide (length (c_str secret) < 1024)%nat) as [Hlt|]; [|lia].
    apply terminated_strncpy in Hlt. congruence.
Qed.

(** X12: where the 1024-byte buffer stops holding a string.  Whatever
    [password_cb] leaves in the buffer is NUL-terminated exactly when the
    secret (up to its first NUL) is shorter than 1024 bytes, and then the
    buffer holds that secret; a secret of 1024 bytes or more leaves its first
    1024 bytes without a terminator.  The size returned is the length of the
    literal secret, also when less was copied, and for a callback the
    [strlen] of the buffer, which is indeterminate when the buffer has no
    terminator. *)
Theorem buffer_terminated_iff_fits rpass prompt s (buf : chars) (n : option Z) s'
    (evs : list event) :
  password_cb rpass prompt s = (Ok (buf, n), s', evs) ->
  exists secret,
    resolved_secret rpass prompt (world s) = Some secret /\
    (terminated buf = true <-> (length (c_str secret) < 1024)%nat) /\
    (terminated buf = true -> c_str buf = c_str secret) /\
    (terminated buf = false -> buf = take 1024 (c_str secret)) /\
    n = (if Rf_isFunction rpass
         then (if terminated buf then Some (strlen secret) else None)
         else Some (Z.of_nat (length secret))).
Proof.
  destruct rpass as [|?|[|x v]|f|?]; try done.
  - rewrite password_cb_literal. intros [= <- <- _ _]. exists x.
    destruct (strncpy_edge x) as (H1 & H2 & H3).
    split; [done|]. split; [exact H1|]. split; [exact H2|]. split; [exact H3|done].
  - rewrite password_cb_closure. cbv zeta. simpl.
    destruct (f (make_string prompt) (world s)) as [[r|] w]; simpl; [|done].
    destruct r as [|?|[|x v]|?|?]; try done.
    intros [= <- <- _ _]. exists x.
    destruct (strncpy_edge x) as (H1 & H2 & H3).
    split; [done|]. split; [exact H1|]. split; [exact H2|]. split; [exact H3|].
    unfold strlen_buf. destruct (terminated (strncpy x 1024)) eqn:E; [|done].
    unfold strlen. by rewrite H2.
Qed.

End Buffer.

(** * Runs of the further properties on scripted servers *)

Module MoreRuns.
Import Fake Scenario Incidents.

(** X3 on a refused connection. *)
Lemma refused_setup_ends_attempt_witness :
  let x := C_start_session 8 rhost rport ruser no_keyfile secret123 (start refused) in
  let before := [E_ssh_new 4096;
                 E_ssh_options_set 4096 (SSH_OPTIONS_HOST (lit "example.org")) SSH_OK;
                 E_ssh_options_set 4096 (SSH_OPTIONS_USER (lit "jeroen")) SSH_OK;
                 E_ssh_options_set 4096 (SSH_OPTIONS_PORT 22) SSH_OK;
                 E_ssh_set_callbacks 4096] in
  let e := E_ssh_connect 4096 SSH_ERROR in
  let after := [E_ssh_disconnect 4096; E_ssh_free 4096] in
  events_of x = before ++ e :: after /\ failed_setup e /\
  exists ssh,
    after = [E_ssh_disconnect ssh; E_ssh_free ssh] /\
    In (E_ssh_new ssh) before /\ bailed (outcome_of x).
Proof.
  intros x before e after.
  assert (Hev : events_of x = before ++ e :: after) by (vm_compute; reflexivity).
  assert (He : failed_setup e) by (vm_compute; discriminate).
  split; [exact Hev|]. split; [exact He|].
  exact (refused_setup_ends_attempt 8 rhost rport ruser no_keyfile secret123 (start refused)
           before after e Hev He).
Defined.

(** X4 on a key file that cannot be imported. *)
Lemma key_failure_precedes_session_witness :
  let r := read_privkey id_rsa secret123 (start broken_key) in
  outcome_of r = Raise (KeyFileFailed (lit "id_rsa")) /\
  C_start_session 8 rhost rport ruser id_rsa secret123 (start broken_key) =
    (Raise (KeyFileFailed (lit "id_rsa")), state_of r, events_of r) /\
  lifecycle_calls (events_of r) = [] /\
  heap (state_of r) = heap (start broken_key).
Proof.
  intros r.
  assert (H : outcome_of r = Raise (KeyFileFailed (lit "id_rsa"))) by (vm_compute; reflexivity).
  split; [exact H|].
  exact (key_failure_precedes_session 8 rhost rport ruser id_rsa secret123 (start broken_key)
           (KeyFileFailed (lit "id_rsa")) H).
Defined.

(** X5 on a server whose key cannot be read and that is not in the
    known-hosts store. *)
Lemma host_key_never_stops_attempt_witness :
  let x := connect no_host_key secret123 in
  let before := [E_ssh_new 4096;
                 E_ssh_options_set 4096 (SSH_OPTIONS_HOST (lit "example.org")) SSH_OK;
                 E_ssh_options_set 4096 (SSH_OPTIONS_USER (lit "jeroen")) SSH_OK;
                 E_ssh_options_set 4096 (SSH_OPTIONS_PORT 22) SSH_OK;
                 E_ssh_set_callbacks 4096] in
  let e := E_ssh_connect 4096 SSH_OK in
  let after := [E_ssh_get_publickey 4096 SSH_ERROR;
                E_ssh_get_publickey_hash 0 SSH_ERROR;
                E_ssh_is_server_known 4096 0;
                E_Rprintf (lit "Unknown server fingerprint: " ++ newline);
                E_ssh_userauth_none 4096 SSH_AUTH_DENIED;
                E_ssh_userauth_list 4096 0] in
  events_of x = before ++ e :: after /\ connected e /\
  exists ssh,
    e = E_ssh_connect ssh SSH_OK /\ In (E_ssh_new ssh) before /\
    proceeds_to_authentication ssh after.
Proof.
  intros x before e after.
  assert (Hev : events_of x = before ++ e :: after) by (vm_compute; reflexivity).
  assert (He : connected e) by reflexivity.
  split; [exact Hev|]. split; [exact He|].
  exact (host_key_never_stops_attempt 8 rhost rport ruser no_keyfile secret123
           (start no_host_key) before after e Hev He).
Defined.

(** X6 on the password scenario. *)
Lemma started_then_disconnected_witness :
  let x := connect password_only secret123 in
  let y := C_disconnect_session (EXTPTRSXP 1) (state_of x) in
  outcome_of x = Ok (EXTPTRSXP 1) /\
  exists l ssh,
    EXTPTRSXP (W:=sim) 1 = EXTPTRSXP l /\
    outcome_of y = Ok R_NilValue /\
    lifecycle_calls (events_of x ++ events_of y) =
      (if ssh =? NULL then [E_ssh_new ssh]
       else [E_ssh_new ssh; E_ssh_disconnect ssh; E_ssh_free ssh]) /\
    heap (state_of y) = <[l := clear (session_handle_of ssh)]> (heap (start password_only)) /\
    ssh_ptr_get (EXTPTRSXP 1) (state_of y) = (Raise SessionDead, state_of y, []).
Proof.
  intros x y.
  assert (H : outcome_of x = Ok (EXTPTRSXP 1)) by (vm_compute; reflexivity).
  split; [exact H|].
  exact (started_then_disconnected 8 rhost rport ruser no_keyfile secret123
           (start password_only) (EXTPTRSXP 1) H).
Defined.

(** X8 on two live handles: closing the first leaves the second live. *)
Lemma disconnect_leaves_other_handles_witness :
  let y := C_disconnect_session (EXTPTRSXP 1) two_handles in
  (1 <> 2)%positive /\
  heap (state_of y) !! 2%positive = heap two_handles !! 2%positive /\
  dom (heap (state_of y)) = dom (heap two_handles) /\
  outcome_of (ssh_ptr_get (EXTPTRSXP 2) (state_of y)) =
    outcome_of (ssh_ptr_get (EXTPTRSXP 2) two_handles).
Proof.
  intros y.
  assert (H : (1 <> 2)%positive) by discriminate.
  split; [exact H|].
  exact (disconnect_leaves_other_handles two_handles 1%positive 2%positive H).
Defined.

(** X10 on two rounds without prompts followed by success. *)
Lemma interactive_result_witness :
  let x := auth_interactive 8 4096 secret123 (start empty_rounds) in
  outcome_of x = Ok SSH_AUTH_SUCCESS /\
  SSH_AUTH_SUCCESS <> SSH_AUTH_INFO /\
  Forall goes_on (removelast (events_of x)) /\
  ((exists pre, events_of x = pre ++ [E_ssh_userauth_kbdint 4096 SSH_AUTH_SUCCESS]) \/
   (SSH_AUTH_SUCCESS = SSH_AUTH_ERROR /\ ends_rejected (events_of x))).
Proof.
  intros x.
  assert (H : outcome_of x = Ok SSH_AUTH_SUCCESS) by (vm_compute; reflexivity).
  split; [exact H|].
  exact (interactive_result 8 4096 secret123 (start empty_rounds) SSH_AUTH_SUCCESS H).
Defined.

(** X12 on the literal ["secret123"]. *)
Lemma buffer_terminated_iff_fits_witness :
  let buf := strncpy (lit "secret123") 1024 in
  let prompt := lit "Password: " in
  password_cb secret123 prompt (start password_only) =
    (Ok (buf, Some 9), start password_only, []) /\
  exists secret,
    resolved_secret secret123 prompt (world (start password_only)) = Some secret /\
    (terminated buf = true <-> (length (c_str secret) < 1024)%nat) /\
    (terminated buf = true -> c_str buf = c_str secret) /\
    (terminated buf = false -> buf = take 1024 (c_str secret)) /\
    Some 9 = (if Rf_isFunction secret123
              then (if terminated buf then Some (strlen secret) else None)
              else Some (Z.of_nat (length secret))).
Proof.
  intros buf prompt.
  assert (H : password_cb secret123 prompt (start password_only) =
                (Ok (buf, Some 9), start password_only, [])) by reflexivity.
  split; [exact H|].
  exact (buffer_terminated_iff_fits secret123 prompt (start password_only) buf (Some 9)
           (start password_only) [] H).
Defined.

(** A secret of exactly 1024 bytes fills the buffer and leaves no room for
    the terminator. *)
Example full_buffer_unterminated :
  let secret := replicate 1024 "a"%char in
  let r := password_cb (STRSXP [secret]) (lit "Password: ") (start password_only) in
  outcome_of r = Ok (secret, Some 1024) /\ terminated secret = false.
Proof. split; vm_compute; reflexivity. Qed.

(** An error of password authentication closes the session, one of
    keyboard-interactive authentication does not. *)
Example password_error_closes_session :
  let x := connect password_error hunter2 in
  bailed (outcome_of x) /\
  lifecycle_calls (events_of x) =
    [E_ssh_new 4096; E_ssh_disconnect 4096; E_ssh_free 4096].
Proof. split; [by eexists _, _|vm_compute; reflexivity]. Qed.

End MoreRuns.
